(** * alastlog: the buffered lastlog reader (lllib.c) and check_string (alastlog.c)

    A shallow embedding of the record-store access layer of [alastlog]:
    the five functions of [lllib.c] ([ll_open], [ll_seek], [ll_read],
    [ll_reload], [ll_close]) over an explicit model of the four system
    calls they issue ([open], [lseek], [read], [close]), and
    [check_string] of [alastlog.c].

    Conventions.
    - C integers are mathematical integers ([Z]) with the conversions
      written out.  The data model is LP64 (Linux, the platform of
      [<lastlog.h>]): [int] is 32-bit signed, [size_t] is 64-bit
      unsigned, [off_t] and [ssize_t] are 64-bit signed.
    - [LLSIZE] is [sizeof(struct lastlog)]; [<lastlog.h>] is a system
      header, so the size is a parameter of the development (292 on
      glibc/x86-64: a 4 byte time, 32 bytes of line, 256 bytes of host).
    - The static variables of [lllib.c] are the fields of [globals]; the
      process's view of the operating system is [kernel]; every function
      is a computation in the state monad [M] over both. *)

From Stdlib Require Import ZArith Lia Bool.
From Stdlib.Strings Require Import String Byte.
From Stdlib Require Import List FinFun.
Import ListNotations.
Local Open Scope Z_scope.

(** ** C integer conversions (LP64) *)

Module CInt.

Definition INT_BITS : Z := 32.
Definition SIZE_BITS : Z := 64.

(** Conversion to [int]: reduction modulo 2^32 into [-2^31, 2^31). *)
Definition to_int (z : Z) : Z :=
  (z + 2 ^ (INT_BITS - 1)) mod 2 ^ INT_BITS - 2 ^ (INT_BITS - 1).

(** Conversion to [size_t]: reduction modulo 2^64 into [0, 2^64). *)
Definition to_size_t (z : Z) : Z := z mod 2 ^ SIZE_BITS.

(** Conversion to [off_t] / [ssize_t]: modulo 2^64 into [-2^63, 2^63). *)
Definition to_off_t (z : Z) : Z :=
  (z + 2 ^ (SIZE_BITS - 1)) mod 2 ^ SIZE_BITS - 2 ^ (SIZE_BITS - 1).

(** [int] arithmetic.  Signed overflow is modelled as wrap-around. *)
Definition int_add (a b : Z) : Z := to_int (a + b).
Definition int_sub (a b : Z) : Z := to_int (a - b).
Definition int_mul (a b : Z) : Z := to_int (a * b).
(** C division truncates toward zero. *)
Definition int_div (a b : Z) : Z := to_int (Z.quot a b).

(** Mixed [int] / [size_t] arithmetic: by the usual arithmetic
    conversions the [int] operand is converted to [size_t] and the
    operation is carried out on unsigned 64-bit values. *)
Definition size_mul (a b : Z) : Z := to_size_t (to_size_t a * to_size_t b).
Definition size_div (a b : Z) : Z := to_size_t a / to_size_t b.

Definition in_int (z : Z) : Prop := - 2 ^ 31 <= z < 2 ^ 31.

End CInt.
Import CInt.

(** ** The operating system as seen through one process *)

(** A file: its bytes, and whether [read(2)] and [lseek(2)] work on it
    (a directory opens read-only but [read] fails with EISDIR; a FIFO
    opens but [lseek] fails with ESPIPE). *)
Record file := mkFile {
  f_data : list byte;
  f_readable : bool;
  f_seekable : bool
}.

(** An open file description: the file and the current read offset. *)
Record ofd := mkOfd {
  of_file : file;
  of_pos : Z
}.

(** The system calls issued, with their arguments and return value. *)
Inductive syscall :=
| SysOpen (path : string) (ret : Z)
| SysLseek (fd offset ret : Z)
| SysRead (fd count ret : Z)
| SysClose (fd ret : Z).

(** [k_trace] records the calls made so far, most recent first. *)
Record kernel := mkKernel {
  k_files : list (string * file);
  k_fdt : list (Z * ofd);
  k_trace : list syscall
}.

Fixpoint lookup_file (path : string) (fs : list (string * file)) : option file :=
  match fs with
  | [] => None
  | (p, f) :: fs' => if String.eqb p path then Some f else lookup_file path fs'
  end.

Fixpoint fdt_get (fd : Z) (t : list (Z * ofd)) : option ofd :=
  match t with
  | [] => None
  | (n, o) :: t' => if n =? fd then Some o else fdt_get fd t'
  end.

Definition fdt_del (fd : Z) (t : list (Z * ofd)) : list (Z * ofd) :=
  filter (fun e => negb (fst e =? fd)) t.

Definition fdt_set (fd : Z) (o : ofd) (t : list (Z * ofd)) : list (Z * ofd) :=
  (fd, o) :: fdt_del fd t.

Definition fd_is_free (t : list (Z * ofd)) (fd : Z) : bool :=
  match fdt_get fd t with None => true | Some _ => false end.

(** [open] returns the lowest descriptor that is not open; 0, 1 and 2
    belong to stdio. *)
Definition lowest_free_fd (t : list (Z * ofd)) : Z :=
  let candidates := map (fun n => 3 + Z.of_nat n) (seq 0 (S (length t))) in
  match find (fd_is_free t) candidates with
  | Some fd => fd
  | None => 3 + Z.of_nat (length t)
  end.

Definition log (e : syscall) (k : kernel) : kernel :=
  mkKernel (k_files k) (k_fdt k) (e :: k_trace k).

(** [open(path, O_RDONLY)] *)
Definition sys_open (path : string) (k : kernel) : Z * kernel :=
  match lookup_file path (k_files k) with
  | None => (-1, log (SysOpen path (-1)) k)
  | Some f =>
      let fd := lowest_free_fd (k_fdt k) in
      (fd, mkKernel (k_files k) (fdt_set fd (mkOfd f 0) (k_fdt k))
                    (SysOpen path fd :: k_trace k))
  end.

(** [lseek(fd, offset, SEEK_SET)] *)
Definition sys_lseek (fd offset : Z) (k : kernel) : Z * kernel :=
  match fdt_get fd (k_fdt k) with
  | None => (-1, log (SysLseek fd offset (-1)) k)
  | Some o =>
      if f_seekable (of_file o) && (0 <=? offset)
      then (offset, mkKernel (k_files k)
                             (fdt_set fd (mkOfd (of_file o) offset) (k_fdt k))
                             (SysLseek fd offset offset :: k_trace k))
      else (-1, log (SysLseek fd offset (-1)) k)
  end.

(** The bytes a successful [read] of [count] bytes delivers: those from
    the read offset on, up to [count] of them. *)
Definition delivered (count : Z) (o : ofd) : list byte :=
  firstn (Z.to_nat count) (skipn (Z.to_nat (of_pos o)) (f_data (of_file o))).

(** [read(fd, buf, count)]: the bytes delivered and their number. *)
Definition sys_read (fd count : Z) (k : kernel) : (Z * list byte) * kernel :=
  match fdt_get fd (k_fdt k) with
  | None => ((-1, []), log (SysRead fd count (-1)) k)
  | Some o =>
      if f_readable (of_file o)
      then
        let bytes := delivered count o in
        let n := Z.of_nat (length bytes) in
        ((n, bytes), mkKernel (k_files k)
                              (fdt_set fd (mkOfd (of_file o) (of_pos o + n)) (k_fdt k))
                              (SysRead fd count n :: k_trace k))
      else ((-1, []), log (SysRead fd count (-1)) k)
  end.

(** [close(fd)] *)
Definition sys_close (fd : Z) (k : kernel) : Z * kernel :=
  match fdt_get fd (k_fdt k) with
  | None => (-1, log (SysClose fd (-1)) k)
  | Some _ => (0, mkKernel (k_files k) (fdt_del fd (k_fdt k))
                           (SysClose fd 0 :: k_trace k))
  end.

(** The number of file positioning calls and of reads in a trace. *)
Definition is_lseek (e : syscall) : bool :=
  match e with SysLseek _ _ _ => true | _ => false end.
Definition is_read (e : syscall) : bool :=
  match e with SysRead _ _ _ => true | _ => false end.
Definition lseek_count (k : kernel) : nat := length (filter is_lseek (k_trace k)).
Definition read_count (k : kernel) : nat := length (filter is_read (k_trace k)).

(** ** lllib.c *)

(** The static variables of the file. *)
Record globals := mkGlobals {
  llbuf : list byte;
  num_recs : Z;
  cur_rec : Z;
  buf_start : Z;
  ll_fd : Z
}.

Record world := mkWorld {
  lib : globals;
  os : kernel
}.

(** The state monad threading [world]. *)
Definition M (A : Type) : Type := world -> A * world.

Definition ret {A} (a : A) : M A := fun w => (a, w).
Definition bind {A B} (m : M A) (f : A -> M B) : M B :=
  fun w => let (a, w') := m w in f a w'.

Declare Scope llmonad_scope.
Delimit Scope llmonad_scope with ll.
Notation "x <- m ;; k" := (bind m (fun x => k))
  (at level 61, m at next level, right associativity) : llmonad_scope.
Notation "m ;; k" := (bind m (fun _ => k))
  (at level 61, right associativity) : llmonad_scope.
Local Open Scope llmonad_scope.

Definition gets {A} (f : globals -> A) : M A := fun w => (f (lib w), w).
Definition modify (f : globals -> globals) : M unit :=
  fun w => (tt, mkWorld (f (lib w)) (os w)).

Definition set_num_recs (v : Z) : M unit :=
  modify (fun g => mkGlobals (llbuf g) v (cur_rec g) (buf_start g) (ll_fd g)).
Definition set_cur_rec (v : Z) : M unit :=
  modify (fun g => mkGlobals (llbuf g) (num_recs g) v (buf_start g) (ll_fd g)).
Definition set_buf_start (v : Z) : M unit :=
  modify (fun g => mkGlobals (llbuf g) (num_recs g) (cur_rec g) v (ll_fd g)).
Definition set_ll_fd (v : Z) : M unit :=
  modify (fun g => mkGlobals (llbuf g) (num_recs g) (cur_rec g) (buf_start g) v).

(** System calls lifted to [M]. *)
Definition syscall_open (path : string) : M Z :=
  fun w => let (r, k) := sys_open path (os w) in (r, mkWorld (lib w) k).
Definition syscall_lseek (fd offset : Z) : M Z :=
  fun w => let (r, k) := sys_lseek fd offset (os w) in (r, mkWorld (lib w) k).
Definition syscall_close (fd : Z) : M Z :=
  fun w => let (r, k) := sys_close fd (os w) in (r, mkWorld (lib w) k).

(** [read(fd, llbuf, count)]: the bytes delivered overwrite the front of
    [llbuf]; the rest of the buffer keeps what it held. *)
Definition overwrite (bytes buf : list byte) : list byte :=
  bytes ++ skipn (length bytes) buf.
Definition syscall_read_llbuf (fd count : Z) : M Z :=
  fun w =>
    let '((r, bytes), k) := sys_read fd count (os w) in
    let g := lib w in
    (r, mkWorld (mkGlobals (overwrite bytes (llbuf g)) (num_recs g) (cur_rec g)
                           (buf_start g) (ll_fd g)) k).

Definition NRECS : Z := 512.

(** What [ll_read] returns: [LL_NULL], or the address
    [&llbuf[byte_offset]]. *)
Inductive llptr :=
| LL_NULL
| LLP (byte_offset : Z).

Section Lllib.

(** [sizeof(struct lastlog)] *)
Variable LLSIZE : Z.

(** Static initialisation: the buffer is zeroed, the counters are 0 and
    [ll_fd] is -1. *)
Definition initial_globals : globals :=
  mkGlobals (repeat x00 (Z.to_nat (NRECS * LLSIZE))) 0 0 0 (-1).

(** [static int ll_reload()] *)
Definition ll_reload : M Z :=
  fd <- gets ll_fd ;;
  r <- syscall_read_llbuf fd (size_mul NRECS LLSIZE) ;;
  let amt_read := to_int r in
  let amt_read := if amt_read <? 0 then -1 else amt_read in
  set_num_recs (to_int (size_div amt_read LLSIZE)) ;;
  set_cur_rec 0 ;;
  gets num_recs.

(** What [ll_reload] stores in [num_recs] when [read] returned [r]. *)
Definition recs_of_read (r : Z) : Z :=
  to_int (size_div (if to_int r <? 0 then -1 else to_int r) LLSIZE).

(** [int ll_open(char *fname)] *)
Definition ll_open (fname : string) : M Z :=
  fd <- syscall_open fname ;;
  set_ll_fd fd ;;
  set_num_recs 0 ;;
  set_cur_rec 0 ;;
  set_buf_start 0 ;;
  gets ll_fd.

(** The test of the second [if] of [ll_seek]: [rec] lies outside the
    buffer. *)
Definition outside_buffer (g : globals) (rec : Z) : bool :=
  (rec <? buf_start g) || (rec >? int_sub (int_add (buf_start g) (num_recs g)) 1).

(** [int ll_seek(int rec)].  [failed] is true when the body of the
    "outside buffer" branch returned -1. *)
Definition ll_seek (rec : Z) : M Z :=
  fd <- gets ll_fd ;;
  if fd =? -1 then ret (-1) else
  cur <- gets cur_rec ;;
  if rec =? cur then ret 0 else
  bs <- gets buf_start ;;
  n <- gets num_recs ;;
  failed <-
    (if (rec <? bs) || (rec >? int_sub (int_add bs n) 1) then
       let offset := to_off_t (size_mul (int_mul (int_div rec NRECS) NRECS) LLSIZE) in
       r <- syscall_lseek fd offset ;;
       if r =? -1 then ret true else
       set_buf_start (int_mul (int_div rec NRECS) NRECS) ;;
       got <- ll_reload ;;
       if got <=? 0 then ret true else ret false
     else ret false) ;;
  if (failed : bool) then ret (-1) else
  bs' <- gets buf_start ;;
  set_cur_rec (int_sub rec bs') ;;
  ret 0.

(** [struct lastlog *ll_read()] *)
Definition ll_read : M llptr :=
  fd <- gets ll_fd ;;
  if fd =? -1 then ret LL_NULL else
  bs <- gets buf_start ;;
  n <- gets num_recs ;;
  (if (bs =? 0) && (n =? 0) then ll_reload else ret 0) ;;
  cur <- gets cur_rec ;;
  n' <- gets num_recs ;;
  at_end <- (if cur =? n' then (got <- ll_reload ;; ret (got =? 0)) else ret false) ;;
  if (at_end : bool) then ret LL_NULL else
  cur' <- gets cur_rec ;;
  let llp := LLP (size_mul cur' LLSIZE) in
  set_cur_rec (int_add cur' 1) ;;
  ret llp.

(** [int ll_close()] *)
Definition ll_close : M Z :=
  fd <- gets ll_fd ;;
  if negb (fd =? -1) then syscall_close fd else ret 0.

(** Dereferencing what [ll_read] returned: the [LLSIZE] bytes at the
    address, when they lie inside [llbuf]. *)
Definition load_record (g : globals) (p : llptr) : option (list byte) :=
  match p with
  | LL_NULL => None
  | LLP off =>
      if (0 <=? off) && (off + LLSIZE <=? Z.of_nat (length (llbuf g)))
      then Some (firstn (Z.to_nat LLSIZE) (skipn (Z.to_nat off) (llbuf g)))
      else None
  end.

(** Window slot [j] of the buffer. *)
Definition window_slot (g : globals) (j : Z) : option (list byte) :=
  load_record g (LLP (j * LLSIZE)).

(** Record [i] of a file: bytes [i * LLSIZE, (i+1) * LLSIZE), when the
    file holds all of them. *)
Definition file_record (f : file) (i : Z) : option (list byte) :=
  if (0 <=? i) && ((i + 1) * LLSIZE <=? Z.of_nat (length (f_data f)))
  then Some (firstn (Z.to_nat LLSIZE) (skipn (Z.to_nat (i * LLSIZE)) (f_data f)))
  else None.

End Lllib.

(** ** alastlog.c: check_string *)

Module Alastlog.

(** A [char *] argument: [NULL], or a pointer to an array of bytes. *)
Inductive cstr :=
| CNull
| CBuf (bytes : list byte).

(** [l[i] = v] *)
Fixpoint store (i : nat) (v : byte) (l : list byte) : list byte :=
  match l, i with
  | [], _ => []
  | _ :: l', O => v :: l'
  | c :: l', S i' => c :: store i' v l'
  end.

(** [char *check_string(char *str, int size)].  The result is the array
    the returned pointer designates: the one-byte literal for [NULL],
    otherwise the argument array after the possible store.  [None] is
    an access outside the array. *)
Definition check_string (str : cstr) (size : Z) : option (list byte) :=
  match str with
  | CNull => Some [x00]
  | CBuf b =>
      let i := int_sub size 1 in
      if (0 <=? i) && (i <? Z.of_nat (length b)) then
        if negb (Byte.eqb (nth (Z.to_nat i) b x00) x00)
        then Some (store (Z.to_nat i) x00 b)
        else Some b
      else None
  end.

(** The C string held in an array: the bytes before the first NUL. *)
Fixpoint c_string (b : list byte) : list byte :=
  match b with
  | [] => []
  | c :: b' => if Byte.eqb c x00 then [] else c :: c_string b'
  end.

(** Field widths of [struct lastlog] on glibc. *)
Definition UT_LINESIZE : Z := 32.
Definition UT_HOSTSIZE : Z := 256.

(** *** The rest of alastlog.c

    C strings that are never [NULL] (the members of [argv], a name of
    the passwd database) are the lists of their bytes before the
    terminator.  A function that may call [exit] returns an [outcome]:
    its value, or the exit status with what it wrote to [stderr]. *)

Inductive outcome (A : Type) :=
| Return (a : A)
| Exit (status : Z) (stderr : list byte).
Arguments Return {A} a.
Arguments Exit {A} status stderr.

Definition text (s : string) : list byte := list_byte_of_string s.
Definition NL : list byte := [x0a].
Definition TAB : list byte := [x09].
Definition SP : list byte := [" "%byte].

(** [strcmp(a, b) == 0] *)
Fixpoint bytes_eqb (a b : list byte) : bool :=
  match a, b with
  | [], [] => true
  | x :: a', y :: b' => Byte.eqb x y && bytes_eqb a' b'
  | _, _ => false
  end.

(** **** The C library: [strtol] in base 10, "C" locale (ISO C 7.22.1.4) *)

Definition LONG_MAX : Z := 2 ^ 63 - 1.
Definition LONG_MIN : Z := - 2 ^ 63.

Definition isspace (c : byte) : bool :=
  match c with
  | x20 | x09 | x0a | x0b | x0c | x0d => true
  | _ => false
  end.

Definition digit_val (c : byte) : option Z :=
  let n := Z.of_N (Byte.to_N c) in
  if (48 <=? n) && (n <=? 57) then Some (n - 48) else None.

Definition is_digit (c : byte) : bool :=
  match digit_val c with Some _ => true | None => false end.

Fixpoint skip_spaces (s : list byte) : list byte :=
  match s with
  | c :: s' => if isspace c then skip_spaces s' else s
  | [] => []
  end.

(** The longest run of digits at the front of [s], accumulated onto
    [acc], and what follows it. *)
Fixpoint digits_from (acc : Z) (s : list byte) : Z * list byte :=
  match s with
  | c :: s' =>
      match digit_val c with
      | Some d => digits_from (10 * acc + d) s'
      | None => (acc, s)
      end
  | [] => (acc, [])
  end.

(** A value out of range is replaced by [LONG_MAX] or [LONG_MIN]. *)
Definition clamp_long (z : Z) : Z := Z.max LONG_MIN (Z.min LONG_MAX z).

(** [strtol(nptr, &endptr, 10)]: the value returned and the string
    [endptr] is left pointing to.  Without digits the value is 0 and
    [endptr] is [nptr]. *)
Definition strtol (nptr : list byte) : Z * list byte :=
  let s1 := skip_spaces nptr in
  let '(neg, s2) :=
    match s1 with
    | c :: r =>
        if Byte.eqb c "-"%byte then (true, r)
        else if Byte.eqb c "+"%byte then (false, r)
        else (false, s1)
    | [] => (false, s1)
    end in
  match s2 with
  | c :: _ =>
      if is_digit c then
        let '(v, rest) := digits_from 0 s2 in
        (clamp_long (if neg then - v else v), rest)
      else (0, nptr)
  | [] => (0, nptr)
  end.

(** The number a string of decimal digits denotes. *)
Fixpoint decimal_value (ds : list byte) : Z :=
  match ds with
  | [] => 0
  | c :: ds' =>
      match digit_val c with Some d => d | None => 0 end * 10 ^ Z.of_nat (length ds')
      + decimal_value ds'
  end.

(** An optional sign: nothing, ["+"] or ["-"]. *)
Definition is_sign (s : list byte) : Prop :=
  s = [] \/ s = ["+"%byte] \/ s = ["-"%byte].

Definition signed (sign : list byte) (v : Z) : Z :=
  if bytes_eqb sign ["-"%byte] then - v else v.

(** What does not start with a digit. *)
Definition no_digit_ahead (s : list byte) : Prop :=
  match s with [] => True | c :: _ => is_digit c = false end.

(** [long parse_time(char *value)] *)
Definition parse_time (value : list byte) : outcome Z :=
  let '(time, temp) := strtol value in
  if (time =? 0) && bytes_eqb value temp
  then Exit 1 (text "alastlog: invalid numeric argument '" ++ value ++ text "'" ++ NL)
  else Return time.

(** **** The passwd database

    An entry carries the two members the program reads; [pw_uid] is a
    [uid_t], an unsigned 32-bit value.  [getpwnam] and [getpwuid] return
    the first entry that matches. *)

Record passwd := mkPasswd {
  pw_name : list byte;
  pw_uid : Z
}.

Definition to_uid_t (z : Z) : Z := z mod 2 ^ 32.

Definition getpwnam (db : list passwd) (name : list byte) : option passwd :=
  find (fun e => bytes_eqb (pw_name e) name) db.

Definition getpwuid (db : list passwd) (uid : Z) : option passwd :=
  find (fun e => pw_uid e =? uid) db.

(** [struct passwd *extract_user(char *name)]; the [long] passed to
    [getpwuid] is converted to [uid_t]. *)
Definition extract_user (db : list passwd) (name : option (list byte))
  : outcome (option passwd) :=
  match name with
  | None => Return None
  | Some n =>
      match getpwnam db n with
      | Some user => Return (Some user)
      | None =>
          let '(uid, temp) := strtol n in
          if (uid =? 0) && bytes_eqb n temp
          then Exit 1 (text "alastlog: invalid user input: " ++ temp ++ NL)
          else
            match getpwuid db (to_uid_t uid) with
            | None => Exit 1 (text "alastlog: Unknown user: " ++ n ++ NL)
            | Some user => Return (Some user)
            end
      end
  end.

(** **** Options *)

Definition usage : list byte :=
  text "Usage: alastlog [options]" ++ NL ++ NL ++ text "Options:" ++ NL
  ++ TAB ++ text "-u LOGIN" ++ TAB ++ text "print lastlog record for user LOGIN" ++ NL
  ++ TAB ++ text "-t DAYS" ++ TAB ++ TAB
     ++ text "print only records more recent than DAYS" ++ NL
  ++ TAB ++ text "-f FILE" ++ TAB ++ TAB ++ text "read data from specified FILE"
     ++ NL ++ NL.

(** [void fatal(char opt, char *arg)]: it always exits with status 1. *)
Definition fatal {A : Type} (opt : byte) (arg : list byte) : outcome A :=
  Exit 1
    ((if Byte.eqb opt x00
      then text "alastlog: unexpected argument: " ++ arg ++ NL
      else text "alastlog: invalid option -- '" ++ [opt] ++ text "'" ++ NL)
     ++ usage).

(** The three variables of [main] that [get_option] fills. *)
Record options := mkOptions {
  opt_user : option passwd;
  opt_days : Z;
  opt_file : option (list byte)
}.

(** [void get_option(char opt, char **val, struct passwd **user,
    long *days, char **file)] *)
Definition get_option (db : list passwd) (opt : byte) (val : list byte)
  (o : options) : outcome options :=
  if Byte.eqb opt "u"%byte then
    match extract_user db (Some val) with
    | Return user => Return (mkOptions user (opt_days o) (opt_file o))
    | Exit st msg => Exit st msg
    end
  else if Byte.eqb opt "t"%byte then
    match parse_time val with
    | Return days => Return (mkOptions (opt_user o) days (opt_file o))
    | Exit st msg => Exit st msg
    end
  else if Byte.eqb opt "f"%byte then
    Return (mkOptions (opt_user o) (opt_days o) (Some val))
  else fatal opt [].

(** The [while] loop of [main] over [av[i] .. av[ac-1]]: [av[i][0]] and
    [av[i][1]] are the first two bytes of the argument, the terminator
    when it is shorter. *)
Fixpoint main_loop (db : list passwd) (av : list (list byte)) (o : options)
  : outcome options :=
  match av with
  | [] => Return o
  | a :: rest =>
      match rest with
      | v :: rest' =>
          if Byte.eqb (nth 0 a x00) "-"%byte then
            match get_option db (nth 1 a x00) v o with
            | Return o' => main_loop db rest' o'
            | Exit st msg => Exit st msg
            end
          else fatal x00 a
      | [] => fatal x00 a
      end
  end.

Definition LLOG_FILE : list byte := text "/var/log/lastlog".

(** [int main(int ac, char *av[])] up to its call of [get_log]: the
    arguments [(file, user, days)] of that call.  [args] is
    [av[1] .. av[ac-1]]. *)
Definition main (db : list passwd) (args : list (list byte))
  : outcome (list byte * option passwd * Z) :=
  match main_loop db args (mkOptions None (-1) None) with
  | Return o =>
      Return (match opt_file o with None => LLOG_FILE | Some file => file end,
              opt_user o, opt_days o)
  | Exit st msg => Exit st msg
  end.

(** **** Reporting *)

(** The members of a [struct lastlog]. *)
Record lastlog := mkLastlog {
  ll_time : Z;
  ll_line : list byte;
  ll_host : list byte
}.

Definition NO : Z := 0.
Definition YES : Z := 1.
Definition SECONDS_IN_DAY : Z := 86400.

(** [int check_time(struct lastlog *lp, long days)], with [now] the
    value [time] returns.  [difftime] and the comparison are carried out
    on [double]s; for [|now - login| < 2^53] they agree with the
    comparison of the integers, which is what is written here.  The
    product is a [long]. *)
Definition check_time (lp : option lastlog) (days now : Z) : Z :=
  if negb (days =? -1) then
    let login := match lp with Some r => ll_time r | None => 0 end in
    let delta := now - login in
    if delta >? to_off_t (SECONDS_IN_DAY * days) then NO else YES
  else YES.

(** [printf("%-W.Ws", s)]: at most [W] bytes of [s], padded with
    spaces on the right to [W]. *)
Definition pad_left (width : nat) (s : list byte) : list byte :=
  firstn width s ++ repeat " "%byte (width - length (firstn width s)).

(** [void print_headers()]: what it writes to [stdout]. *)
Definition print_headers : list byte :=
  pad_left 16 (text "Username") ++ SP ++ pad_left 8 (text "Port") ++ SP
  ++ pad_left 16 (text "From") ++ SP ++ text "Latest" ++ NL.

Section Reporting.

(** What [strftime(result, TIMESIZE, TIME_FORMAT, localtime(&time))]
    leaves in [result], as a function of [time]. *)
Variable strftime_local : Z -> list byte.

(** [void show_time(struct lastlog *lp, char *fmt)]: what it writes. *)
Definition show_time (lp : option lastlog) : list byte :=
  match lp with
  | None => text "**Never logged in**"
  | Some r =>
      if ll_time r =? 0 then text "**Never logged in**"
      else strftime_local (ll_time r)
  end.

(** [int show_info(struct lastlog *lp, struct passwd *ep, long days,
    int headers)]: what it writes to [stdout], what it returns, and the
    record after the stores of [check_string].  [None] is an access
    outside a member array. *)
Definition show_info (lp : option lastlog) (ep : passwd) (days headers now : Z)
  : option (list byte * Z * option lastlog) :=
  if check_time lp days now =? NO then Some ([], headers, lp) else
  let head := if headers =? NO then print_headers else [] in
  let name := pad_left 16 (pw_name ep) ++ SP in
  match lp with
  | Some r =>
      match check_string (CBuf (ll_line r)) UT_LINESIZE with
      | None => None
      | Some line =>
          match check_string (CBuf (ll_host r)) UT_HOSTSIZE with
          | None => None
          | Some host =>
              Some (head ++ name
                    ++ pad_left 8 (c_string line) ++ SP
                    ++ pad_left 16 (c_string host) ++ SP
                    ++ show_time lp ++ NL,
                    YES, Some (mkLastlog (ll_time r) line host))
          end
      end
  | None =>
      Some (head ++ name ++ pad_left 8 [] ++ SP ++ pad_left 16 [] ++ SP
            ++ show_time lp ++ NL,
            YES, None)
  end.

End Reporting.

End Alastlog.

(** ** Concrete files and sessions

    The record size on glibc/x86-64, files whose record [i] carries [i]
    in its first two bytes, and a process that has just started. *)

Module Scenario.

Definition LLSIZE : Z := 292.

Definition sample_record (i : Z) : list byte :=
  match Byte.of_N (Z.to_N (i mod 256)), Byte.of_N (Z.to_N ((i / 256) mod 256)) with
  | Some lo, Some hi => lo :: hi :: repeat x00 (Z.to_nat LLSIZE - 2)
  | _, _ => repeat x00 (Z.to_nat LLSIZE)
  end.

(** The index a sample record carries. *)
Definition sample_index (r : list byte) : Z :=
  match r with
  | lo :: hi :: _ => Z.of_N (Byte.to_N lo) + 256 * Z.of_N (Byte.to_N hi)
  | _ => -1
  end.

Definition sample_data (n : nat) : list byte :=
  flat_map (fun i => sample_record (Z.of_nat i)) (seq 0 n).

(** A regular file of [n] records, a directory, and a FIFO holding [n]
    records. *)
Definition regular (n : nat) : file := mkFile (sample_data n) true true.
Definition directory : file := mkFile [] false true.
Definition fifo (n : nat) : file := mkFile (sample_data n) true false.

Definition lastlog_path : string := "/var/log/lastlog".

(** The process at start-up with [f] at [lastlog_path]: statics
    initialised, no descriptor open, no call made. *)
Definition boot (f : file) : world :=
  mkWorld (initial_globals LLSIZE) (mkKernel [(lastlog_path, f)] [] []).

(** [n] successive calls of [ll_read], returning what the last one
    returned. *)
Fixpoint ll_read_times (n : nat) : M llptr :=
  match n with
  | O => ret LL_NULL
  | S O => ll_read LLSIZE
  | S n' => ll_read LLSIZE ;; ll_read_times n'
  end.

(** Running a computation: its result, and the world it leaves. *)
Definition result {A} (m : M A) (w : world) : A := fst (m w).
Definition after {A} (m : M A) (w : world) : world := snd (m w).

(** The index carried by the record a pointer designates. *)
Definition yielded (w : world) (p : llptr) : option Z :=
  option_map sample_index (load_record LLSIZE (lib w) p).

End Scenario.

(** The read offset of the descriptor [ll_fd], when it is open. *)
Definition file_offset (w : world) : option Z :=
  option_map of_pos (fdt_get (ll_fd (lib w)) (k_fdt (os w))).

(** The descriptor [ll_fd] is open, with open file description [o]. *)
Definition open_on (w : world) (o : ofd) : Prop :=
  fdt_get (ll_fd (lib w)) (k_fdt (os w)) = Some o.

(** The store has run into the end of a readable file: the window is
    empty and the read offset is at or past the last byte. *)
Definition at_eof (w : world) : Prop :=
  ll_fd (lib w) <> -1 /\ num_recs (lib w) = 0 /\ cur_rec (lib w) = 0 /\
  exists o, open_on w o /\ f_readable (of_file o) = true /\
            0 <= of_pos o /\ Z.of_nat (length (f_data (of_file o))) <= of_pos o.

(** The window invariant of the store: the cursor lies between 0 and
    the number of records in the buffer, which is at most [NRECS]. *)
Definition window_inv (g : globals) : Prop :=
  0 <= cur_rec g <= num_recs g /\ num_recs g <= NRECS.

(** The store right after a successful [ll_open] of the file [f]. *)
Definition freshly_opened (f : file) (w : world) : Prop :=
  ll_fd (lib w) <> -1 /\ open_on w (mkOfd f 0) /\
  num_recs (lib w) = 0 /\ cur_rec (lib w) = 0 /\ buf_start (lib w) = 0.

(** The number of whole records a file holds. *)
Definition whole_records (LLSIZE : Z) (f : file) : Z :=
  Z.of_nat (length (f_data f)) / LLSIZE.

(** A sequential scan of [f] that has yielded records [0 .. j-1]: the
    buffer holds the page that starts at record [base], the cursor
    stands on record [j], and the read offset is at the end of the page
    (or of the file).  [buf_start] is still 0: only [ll_seek] sets it. *)
Definition scan_at (LLSIZE : Z) (f : file) (base j : Z) (w : world) : Prop :=
  ll_fd (lib w) <> -1 /\ buf_start (lib w) = 0 /\
  0 <= base /\
  open_on w (mkOfd f (Z.min ((base + NRECS) * LLSIZE)
                            (Z.of_nat (length (f_data f))))) /\
  num_recs (lib w) = Z.min NRECS (whole_records LLSIZE f - base) /\
  cur_rec (lib w) = j - base /\
  0 <= j - base <= num_recs (lib w) /\
  forall i, 0 <= i < num_recs (lib w) ->
    load_record LLSIZE (lib w) (LLP (i * LLSIZE)) = file_record LLSIZE f (base + i).

(** The [read] calls of a scan that has loaded the first [pages] pages
    of [f] through descriptor [fd], most recent first. *)
Fixpoint page_reads (LLSIZE fd : Z) (f : file) (pages : nat) : list syscall :=
  match pages with
  | O => []
  | S p =>
      SysRead fd (NRECS * LLSIZE)
              (Z.min (NRECS * LLSIZE)
                     (Z.of_nat (length (f_data f)) - Z.of_nat p * NRECS * LLSIZE))
        :: page_reads LLSIZE fd f p
  end.

(** The world after [k] calls of [ll_read]. *)
Definition after_reads (LLSIZE : Z) (k : nat) (w : world) : world :=
  Nat.iter k (fun x => snd (ll_read LLSIZE x)) w.

(** * Properties *)

(** Unfolding the plumbing of [M]. *)
Create HintDb llmonad.
#[local] Hint Unfold bind gets ret modify set_num_recs set_cur_rec set_buf_start
  set_ll_fd syscall_open syscall_lseek syscall_close syscall_read_llbuf : llmonad.

(** ** Integer conversions inside their ranges *)

Lemma to_int_id z : in_int z -> to_int z = z.
Proof.
  unfold in_int, to_int, INT_BITS. intros H.
  change (2 ^ (32 - 1)) with 2147483648. change (2 ^ 32) with 4294967296.
  change (2 ^ 31) with 2147483648 in H.
  rewrite Z.mod_small; lia.
Qed.

Lemma to_size_t_id z : 0 <= z < 2 ^ 64 -> to_size_t z = z.
Proof. unfold to_size_t, SIZE_BITS. intros H. now rewrite Z.mod_small. Qed.

Lemma to_off_t_id z : - 2 ^ 63 <= z < 2 ^ 63 -> to_off_t z = z.
Proof.
  unfold to_off_t, SIZE_BITS. intros H.
  change (2 ^ (64 - 1)) with 9223372036854775808.
  change (2 ^ 64) with 18446744073709551616.
  change (2 ^ 63) with 9223372036854775808 in H.
  rewrite Z.mod_small; lia.
Qed.

(** ** The descriptor table *)

Lemma fdt_get_set_same fd o t : fdt_get fd (fdt_set fd o t) = Some o.
Proof. unfold fdt_set. simpl. now rewrite Z.eqb_refl. Qed.

Lemma fdt_get_del_same fd t : fdt_get fd (fdt_del fd t) = None.
Proof.
  unfold fdt_del. induction t as [|[n o] t IH]; simpl; [reflexivity|].
  destruct (n =? fd) eqn:E; simpl; [assumption|].
  now rewrite E.
Qed.

Arguments fdt_set : simpl never.
Arguments fdt_del : simpl never.

Lemma lowest_free_fd_range t :
  3 <= lowest_free_fd t <= 3 + Z.of_nat (length t).
Proof.
  unfold lowest_free_fd.
  destruct (find _ _) as [fd|] eqn:E; [|lia].
  apply find_some in E. destruct E as [Hin _].
  apply in_map_iff in Hin. destruct Hin as [n [<- Hn]].
  apply in_seq in Hn. lia.
Qed.

(** ** System calls *)

Lemma sys_lseek_cases fd off k :
  sys_lseek fd off k = (-1, log (SysLseek fd off (-1)) k) \/
  (0 <= off /\ exists o, fdt_get fd (k_fdt k) = Some o /\
     f_seekable (of_file o) = true /\
     sys_lseek fd off k =
       (off, mkKernel (k_files k) (fdt_set fd (mkOfd (of_file o) off) (k_fdt k))
                      (SysLseek fd off off :: k_trace k))).
Proof.
  unfold sys_lseek. destruct (fdt_get fd (k_fdt k)) as [o|] eqn:E; [|now left].
  destruct (f_seekable (of_file o)) eqn:Es; simpl; [|now left].
  destruct (0 <=? off) eqn:E0; [|now left].
  right. split; [now apply Z.leb_le|]. exists o. auto.
Qed.

Lemma sys_read_trace fd c k :
  k_trace (snd (sys_read fd c k)) = SysRead fd c (fst (fst (sys_read fd c k))) :: k_trace k.
Proof.
  unfold sys_read. destruct (fdt_get fd (k_fdt k)) as [o|]; [|reflexivity].
  destruct (f_readable (of_file o)); reflexivity.
Qed.

Lemma sys_read_readable fd c k o :
  fdt_get fd (k_fdt k) = Some o -> f_readable (of_file o) = true ->
  sys_read fd c k =
    ((Z.of_nat (length (delivered c o)), delivered c o),
     mkKernel (k_files k)
              (fdt_set fd (mkOfd (of_file o) (of_pos o + Z.of_nat (length (delivered c o))))
                       (k_fdt k))
              (SysRead fd c (Z.of_nat (length (delivered c o))) :: k_trace k)).
Proof. intros E R. unfold sys_read, delivered. now rewrite E, R. Qed.

Lemma delivered_length c o :
  0 <= c ->
  0 <= Z.of_nat (length (delivered c o)) <= c.
Proof.
  intros Hc. unfold delivered. rewrite length_firstn. lia.
Qed.

Lemma delivered_at_eof c o :
  0 <= of_pos o -> Z.of_nat (length (f_data (of_file o))) <= of_pos o ->
  delivered c o = [].
Proof.
  intros H0 H. unfold delivered. rewrite skipn_all2 by lia. apply firstn_nil.
Qed.

Lemma delivered_short c o :
  0 <= of_pos o -> 0 <= c ->
  Z.of_nat (length (delivered c o)) < c ->
  Z.of_nat (length (f_data (of_file o))) <=
    of_pos o + Z.of_nat (length (delivered c o)).
Proof.
  intros H0 Hc. unfold delivered. rewrite length_firstn, length_skipn. lia.
Qed.

Lemma overwrite_nil buf : overwrite [] buf = buf.
Proof. reflexivity. Qed.

(** Slot [j] of a buffer that received what [read] delivered is the
    piece of the file [j] records after the read offset. *)
Lemma delivered_slot c o j L buf :
  0 <= of_pos o -> 0 < L -> 0 <= j ->
  (j + 1) * L <= Z.of_nat (length (delivered c o)) ->
  firstn (Z.to_nat L) (skipn (Z.to_nat (j * L)) (overwrite (delivered c o) buf)) =
  firstn (Z.to_nat L) (skipn (Z.to_nat (of_pos o + j * L)) (f_data (of_file o))).
Proof.
  intros Hp HL Hj Hlen. unfold overwrite.
  assert (Hk : (Z.to_nat (j * L) + Z.to_nat L <= length (delivered c o))%nat) by nia.
  rewrite skipn_app, firstn_app, length_skipn.
  replace (Z.to_nat L - (length (delivered c o) - Z.to_nat (j * L)))%nat with 0%nat by lia.
  rewrite firstn_O, app_nil_r.
  unfold delivered in *. rewrite length_firstn in Hk.
  rewrite skipn_firstn_comm, firstn_firstn, skipn_skipn.
  f_equal; [lia|]. f_equal. nia.
Qed.

(** ** lllib.c *)

Section StoreProperties.

Variable LLSIZE : Z.

(** The record size is positive and the buffer size fits an [int]
    (the type of [amt_read]). *)
Hypothesis LLSIZE_pos : 0 < LLSIZE.
Hypothesis buffer_fits_int : NRECS * LLSIZE < 2 ^ 31.

Lemma count_exact : size_mul NRECS LLSIZE = NRECS * LLSIZE.
Proof.
  unfold size_mul, NRECS in *.
  rewrite (to_size_t_id 512) by lia.
  rewrite (to_size_t_id LLSIZE) by lia.
  apply to_size_t_id. lia.
Qed.

Lemma ll_reload_unfold w :
  ll_reload LLSIZE w =
    let '((r, bytes), k') :=
      sys_read (ll_fd (lib w)) (size_mul NRECS LLSIZE) (os w) in
    (recs_of_read LLSIZE r,
     mkWorld (mkGlobals (overwrite bytes (llbuf (lib w))) (recs_of_read LLSIZE r) 0
                        (buf_start (lib w)) (ll_fd (lib w))) k').
Proof.
  unfold ll_reload, recs_of_read. autounfold with llmonad.
  simpl. destruct (sys_read _ _ _) as [[r bytes] k']. reflexivity.
Qed.

(** A read that delivered [n] bytes, [0 <= n <= NRECS * LLSIZE], yields
    [n / LLSIZE] records. *)
Lemma recs_of_read_success n :
  0 <= n <= NRECS * LLSIZE -> recs_of_read LLSIZE n = n / LLSIZE.
Proof.
  intros Hn. unfold recs_of_read. unfold NRECS in *.
  rewrite (to_int_id n) by (unfold in_int; lia).
  destruct (n <? 0) eqn:E; [apply Z.ltb_lt in E; lia|].
  unfold size_div. rewrite !to_size_t_id by lia.
  apply to_int_id. unfold in_int.
  assert (0 <= n / LLSIZE <= n).
  { split; [apply Z.div_pos; lia|]. apply Z.div_le_upper_bound; nia. }
  lia.
Qed.

Lemma recs_of_read_bounds n :
  0 <= n <= NRECS * LLSIZE -> 0 <= recs_of_read LLSIZE n <= NRECS.
Proof.
  intros Hn. rewrite recs_of_read_success by assumption.
  split; [apply Z.div_pos; lia|].
  apply Z.div_le_upper_bound; unfold NRECS in *; lia.
Qed.

(** The byte offset [ll_seek] computes for a non-negative [rec]. *)
Lemma seek_offset_exact rec :
  0 <= rec < 2 ^ 31 ->
  int_mul (int_div rec NRECS) NRECS = rec / NRECS * NRECS /\
  to_off_t (size_mul (int_mul (int_div rec NRECS) NRECS) LLSIZE)
    = rec / NRECS * NRECS * LLSIZE /\
  0 <= rec - rec / NRECS * NRECS < NRECS.
Proof.
  intros Hr. unfold NRECS in *.
  assert (Hq : Z.quot rec 512 = rec / 512) by (apply Z.quot_div_nonneg; lia).
  assert (Hd : 0 <= rec / 512 <= rec).
  { split; [apply Z.div_pos; lia|]. apply Z.div_le_upper_bound; lia. }
  assert (Hm : 0 <= rec - rec / 512 * 512 < 512).
  { pose proof (Z.mod_pos_bound rec 512 ltac:(lia)).
    pose proof (Z.div_mod rec 512 ltac:(lia)). lia. }
  assert (Hp : int_mul (int_div rec 512) 512 = rec / 512 * 512).
  { unfold int_mul, int_div. rewrite Hq.
    rewrite (to_int_id (rec / 512)) by (unfold in_int; lia).
    apply to_int_id. unfold in_int. lia. }
  split; [exact Hp|]. split; [|lia].
  rewrite Hp. unfold size_mul.
  rewrite (to_size_t_id (rec / 512 * 512)) by lia.
  rewrite (to_size_t_id LLSIZE) by lia.
  rewrite to_size_t_id by nia.
  apply to_off_t_id. nia.
Qed.

(** [ll_seek] case by case. *)
Lemma ll_seek_no_file w rec :
  ll_fd (lib w) = -1 -> ll_seek LLSIZE rec w = (-1, w).
Proof.
  intros H. unfold ll_seek. autounfold with llmonad. simpl. now rewrite H.
Qed.

Lemma ll_seek_fast w rec :
  ll_fd (lib w) <> -1 -> rec = cur_rec (lib w) -> ll_seek LLSIZE rec w = (0, w).
Proof.
  intros H E. unfold ll_seek, bind, gets, ret. simpl.
  apply Z.eqb_neq in H. rewrite H. apply Z.eqb_eq in E. now rewrite E.
Qed.

Lemma ll_seek_inside w rec :
  ll_fd (lib w) <> -1 -> rec <> cur_rec (lib w) ->
  outside_buffer (lib w) rec = false ->
  ll_seek LLSIZE rec w =
    (0, mkWorld (mkGlobals (llbuf (lib w)) (num_recs (lib w))
                           (int_sub rec (buf_start (lib w)))
                           (buf_start (lib w)) (ll_fd (lib w))) (os w)).
Proof.
  intros H E O. unfold ll_seek, bind, gets, ret. simpl.
  apply Z.eqb_neq in H. rewrite H. apply Z.eqb_neq in E. rewrite E.
  unfold outside_buffer in O. rewrite O. reflexivity.
Qed.

(** The "outside buffer" branch, for a non-negative [rec]: the offset
    passed to [lseek] is the page start in bytes; when [lseek] fails
    nothing else happens; otherwise [buf_start] is the page start and
    [ll_reload] runs. *)
Lemma ll_seek_outside w rec :
  0 <= rec < 2 ^ 31 ->
  ll_fd (lib w) <> -1 -> rec <> cur_rec (lib w) ->
  outside_buffer (lib w) rec = true ->
  let page := rec / NRECS * NRECS in
  let '(r, k1) := sys_lseek (ll_fd (lib w)) (page * LLSIZE) (os w) in
  ll_seek LLSIZE rec w =
    if r =? -1 then (-1, mkWorld (lib w) k1)
    else
      let g1 := mkGlobals (llbuf (lib w)) (num_recs (lib w)) (cur_rec (lib w))
                          page (ll_fd (lib w)) in
      let '(got, w2) := ll_reload LLSIZE (mkWorld g1 k1) in
      if got <=? 0 then (-1, w2)
      else (0, mkWorld (mkGlobals (llbuf (lib w2)) (num_recs (lib w2))
                                  (rec - page) (buf_start (lib w2))
                                  (ll_fd (lib w2))) (os w2)).
Proof.
  intros Hr H E O. destruct (seek_offset_exact rec Hr) as [Hp [Ho Hm]].
  cbv zeta.
  destruct (sys_lseek _ _ _) as [r k1] eqn:El.
  unfold ll_seek, bind, gets, ret. simpl.
  apply Z.eqb_neq in H. rewrite H. apply Z.eqb_neq in E. rewrite E.
  unfold outside_buffer in O. rewrite O.
  unfold syscall_lseek. simpl. rewrite Ho, El.
  destruct (r =? -1); [reflexivity|].
  unfold set_buf_start, modify. simpl. rewrite Hp.
  rewrite ll_reload_unfold. simpl.
  destruct (sys_read _ _ _) as [[r2 bytes] k2]. simpl.
  destruct (recs_of_read LLSIZE r2 <=? 0); [reflexivity|].
  unfold set_cur_rec, modify. simpl.
  unfold int_sub. rewrite to_int_id; [reflexivity|].
  unfold in_int, NRECS in *. lia.
Qed.

(** C5 (offset law).  [ll_seek(rec)] is called with [ll_fd] set, a
    non-negative [rec] other than [cur_rec], and
    [P = floor(rec / NRECS) * NRECS].
    - [rec] outside the buffer, the descriptor open on a seekable file:
      the call issues exactly two system calls, first
      [lseek(ll_fd, P * LLSIZE, SEEK_SET)], which succeeds, then the
      [read] of the reload, which therefore starts at byte [P * LLSIZE]
      and returns [n].  [buf_start] is [P].  The call returns 0 when the
      read brought at least one record, and then
      [cur_rec = rec - buf_start]; it returns -1 otherwise.
    - [rec] outside the buffer, the file not seekable: the only system
      call is the failed [lseek] to [P * LLSIZE]; there is no reload,
      the static variables keep their values and the call returns -1.
    - [rec] inside the buffer (with [buf_start >= 0]): no system call,
      [buf_start] is kept, the call returns 0 and
      [cur_rec = rec - buf_start]. *)
Theorem ll_seek_reload_offset w rec :
  0 <= rec < 2 ^ 31 ->
  ll_fd (lib w) <> -1 -> rec <> cur_rec (lib w) ->
  let page := rec / NRECS * NRECS in
  let fd := ll_fd (lib w) in
  let r := fst (ll_seek LLSIZE rec w) in
  let w' := snd (ll_seek LLSIZE rec w) in
  (outside_buffer (lib w) rec = true ->
   forall o, open_on w o ->
     let n := if f_readable (of_file o)
              then Z.of_nat (length (delivered (NRECS * LLSIZE)
                                       (mkOfd (of_file o) (page * LLSIZE))))
              else -1 in
     (f_seekable (of_file o) = true ->
      k_trace (os w') =
        SysRead fd (NRECS * LLSIZE) n
          :: SysLseek fd (page * LLSIZE) (page * LLSIZE) :: k_trace (os w)
      /\ buf_start (lib w') = page
      /\ file_offset w' = Some (page * LLSIZE + Z.max 0 n)
      /\ num_recs (lib w') = recs_of_read LLSIZE n
      /\ r = (if recs_of_read LLSIZE n <=? 0 then -1 else 0)
      /\ (r = 0 -> cur_rec (lib w') = rec - buf_start (lib w')))
     /\
     (f_seekable (of_file o) = false ->
      r = -1 /\ lib w' = lib w /\
      k_trace (os w') = SysLseek fd (page * LLSIZE) (-1) :: k_trace (os w)))
  /\
  (outside_buffer (lib w) rec = false -> 0 <= buf_start (lib w) ->
   r = 0 /\ os w' = os w /\ buf_start (lib w') = buf_start (lib w) /\
   cur_rec (lib w') = rec - buf_start (lib w')).
Proof.
  intros Hr Hfd Hc page fd r w'. subst r w'.
  assert (Hpage : 0 <= page * LLSIZE).
  { subst page. unfold NRECS. assert (0 <= rec / 512) by (apply Z.div_pos; lia). nia. }
  split.
  - intros Hout o Hopen n.
    unfold open_on in Hopen. fold fd in Hopen.
    pose proof (ll_seek_outside w rec Hr Hfd Hc Hout) as Hs. cbv zeta in Hs.
    fold page in Hs. fold fd in Hs.
    split; intros Hseek.
    + assert (El : sys_lseek fd (page * LLSIZE) (os w) =
                (page * LLSIZE,
                 mkKernel (k_files (os w))
                   (fdt_set fd (mkOfd (of_file o) (page * LLSIZE)) (k_fdt (os w)))
                   (SysLseek fd (page * LLSIZE) (page * LLSIZE) :: k_trace (os w)))).
      { unfold sys_lseek. rewrite Hopen, Hseek.
        replace (0 <=? page * LLSIZE) with true by (symmetry; apply Z.leb_le; lia).
        reflexivity. }
      rewrite El in Hs.
      replace (page * LLSIZE =? -1) with false in Hs by (symmetry; apply Z.eqb_neq; lia).
      rewrite ll_reload_unfold in Hs. cbn [lib os ll_fd llbuf buf_start] in Hs.
      rewrite count_exact in Hs. fold fd in Hs.
      unfold sys_read in Hs. cbn [k_fdt k_files k_trace] in Hs.
      rewrite fdt_get_set_same in Hs. cbn [of_file of_pos] in Hs.
      unfold file_offset. subst n. clearbody fd page.
      destruct (f_readable (of_file o)).
      * set (bytes := delivered (NRECS * LLSIZE) (mkOfd (of_file o) (page * LLSIZE))) in *.
        rewrite Hs.
        destruct (recs_of_read LLSIZE (Z.of_nat (length bytes)) <=? 0);
          cbn [fst snd lib os k_trace k_fdt buf_start num_recs cur_rec ll_fd];
          rewrite fdt_get_set_same; cbn [option_map of_pos];
          (split; [reflexivity|]); (split; [reflexivity|]);
          (split; [f_equal; lia|]); (split; [reflexivity|]);
          (split; [reflexivity|]); [discriminate|reflexivity].
      * rewrite Hs.
        destruct (recs_of_read LLSIZE (-1) <=? 0);
          cbn [fst snd lib os log k_trace k_fdt k_files buf_start num_recs cur_rec ll_fd];
          rewrite fdt_get_set_same; cbn [option_map of_pos];
          (split; [reflexivity|]); (split; [reflexivity|]);
          (split; [f_equal; lia|]); (split; [reflexivity|]);
          (split; [reflexivity|]); [discriminate|reflexivity].
    + assert (El : sys_lseek fd (page * LLSIZE) (os w) =
                (-1, log (SysLseek fd (page * LLSIZE) (-1)) (os w))).
      { unfold sys_lseek. rewrite Hopen, Hseek. reflexivity. }
      rewrite El in Hs. cbn [Z.eqb] in Hs. rewrite Hs.
      destruct w as [g k]. repeat split.
  - intros Hin Hbs.
    rewrite (ll_seek_inside w rec Hfd Hc Hin).
    cbn [fst snd lib os buf_start cur_rec].
    assert (Hle : buf_start (lib w) <= rec).
    { unfold outside_buffer in Hin. apply orb_false_iff in Hin.
      destruct Hin as [Hlt _]. apply Z.ltb_ge in Hlt. exact Hlt. }
    repeat split. unfold int_sub. apply to_int_id. unfold in_int. lia.
Qed.

(** [ll_reload] on an open, readable descriptor. *)
Lemma ll_reload_readable w o :
  open_on w o -> f_readable (of_file o) = true ->
  let bytes := delivered (NRECS * LLSIZE) o in
  let n := Z.of_nat (length bytes) in
  ll_reload LLSIZE w =
    (n / LLSIZE,
     mkWorld (mkGlobals (overwrite bytes (llbuf (lib w))) (n / LLSIZE) 0
                        (buf_start (lib w)) (ll_fd (lib w)))
             (mkKernel (k_files (os w))
                       (fdt_set (ll_fd (lib w)) (mkOfd (of_file o) (of_pos o + n))
                                (k_fdt (os w)))
                       (SysRead (ll_fd (lib w)) (NRECS * LLSIZE) n :: k_trace (os w)))).
Proof.
  intros Ho Hr bytes n. rewrite ll_reload_unfold, count_exact.
  rewrite (sys_read_readable _ _ _ o Ho Hr). fold bytes. fold n.
  assert (Hn : 0 <= n <= NRECS * LLSIZE).
  { apply delivered_length. unfold NRECS. lia. }
  cbv iota beta. now rewrite recs_of_read_success.
Qed.

(** [ll_read] as the three steps of its body: the first-call reload,
    the end-of-buffer test with its reload, and the yield. *)
Lemma ll_read_unfold w :
  ll_read LLSIZE w =
    if ll_fd (lib w) =? -1 then (LL_NULL, w) else
    let w1 := if (buf_start (lib w) =? 0) && (num_recs (lib w) =? 0)
              then snd (ll_reload LLSIZE w) else w in
    let '(at_end, w2) :=
      if cur_rec (lib w1) =? num_recs (lib w1)
      then (fst (ll_reload LLSIZE w1) =? 0, snd (ll_reload LLSIZE w1))
      else (false, w1) in
    if at_end then (LL_NULL, w2)
    else (LLP (size_mul (cur_rec (lib w2)) LLSIZE),
          mkWorld (mkGlobals (llbuf (lib w2)) (num_recs (lib w2))
                             (int_add (cur_rec (lib w2)) 1)
                             (buf_start (lib w2)) (ll_fd (lib w2))) (os w2)).
Proof.
  unfold ll_read, bind, gets, ret. cbn [fst snd].
  destruct (ll_fd (lib w) =? -1); [reflexivity|].
  cbv zeta.
  destruct ((buf_start (lib w) =? 0) && (num_recs (lib w) =? 0)).
  - destruct (ll_reload LLSIZE w) as [z w1]. cbn [fst snd].
    destruct (cur_rec (lib w1) =? num_recs (lib w1)).
    + destruct (ll_reload LLSIZE w1) as [got w2]. cbn [fst snd].
      destruct (got =? 0); reflexivity.
    + reflexivity.
  - destruct (cur_rec (lib w) =? num_recs (lib w)).
    + destruct (ll_reload LLSIZE w) as [got w2]. cbn [fst snd].
      destruct (got =? 0); reflexivity.
    + reflexivity.
Qed.

(** *** At the end of the file *)

Lemma ll_reload_at_eof w o :
  ll_fd (lib w) <> -1 ->
  open_on w o -> f_readable (of_file o) = true ->
  0 <= of_pos o -> Z.of_nat (length (f_data (of_file o))) <= of_pos o ->
  let w' := snd (ll_reload LLSIZE w) in
  fst (ll_reload LLSIZE w) = 0 /\
  at_eof w' /\
  lib w' = mkGlobals (llbuf (lib w)) 0 0 (buf_start (lib w)) (ll_fd (lib w)) /\
  file_offset w' = file_offset w /\
  read_count (os w') = S (read_count (os w)).
Proof.
  intros Hfd Ho Hr H0 Hlen w'. subst w'.
  rewrite (ll_reload_readable w o Ho Hr).
  rewrite (delivered_at_eof _ o H0 Hlen).
  cbn [fst snd length Z.of_nat lib os]. rewrite Z.div_0_l by lia.
  rewrite overwrite_nil, Z.add_0_r.
  split; [reflexivity|]. split.
  { unfold at_eof, open_on. cbn [lib os ll_fd num_recs cur_rec k_fdt].
    repeat (split; [solve [auto]|]).
    exists (mkOfd (of_file o) (of_pos o)). rewrite fdt_get_set_same. auto. }
  split; [reflexivity|]. split; [|reflexivity].
  unfold file_offset. cbn [lib os ll_fd k_fdt].
  rewrite fdt_get_set_same. unfold open_on in Ho. rewrite Ho. reflexivity.
Qed.

Lemma globals_eta g :
  g = mkGlobals (llbuf g) (num_recs g) (cur_rec g) (buf_start g) (ll_fd g).
Proof. now destruct g. Qed.

(** At the end of the file [ll_read] returns [LL_NULL], keeps the
    statics and the read offset, and issues at least one [read]. *)
Lemma ll_read_at_eof w :
  at_eof w ->
  let w' := snd (ll_read LLSIZE w) in
  fst (ll_read LLSIZE w) = LL_NULL /\
  at_eof w' /\ lib w' = lib w /\ file_offset w' = file_offset w /\
  (read_count (os w) < read_count (os w'))%nat.
Proof.
  intros [Hfd [Hn [Hc [o [Ho [Hr [H0 Hlen]]]]]]] w'. subst w'.
  rewrite ll_read_unfold.
  apply Z.eqb_neq in Hfd as Hfdb. rewrite Hfdb.
  assert (Hg : lib w = mkGlobals (llbuf (lib w)) 0 0 (buf_start (lib w)) (ll_fd (lib w))).
  { rewrite (globals_eta (lib w)) at 1. now rewrite Hn, Hc. }
  destruct (ll_reload_at_eof w o Hfd Ho Hr H0 Hlen) as [R1 [E1 [G1 [F1 C1]]]].
  assert (Hstep : forall w1,
             at_eof w1 -> lib w1 = lib w -> file_offset w1 = file_offset w ->
             (read_count (os w) <= read_count (os w1))%nat ->
             let w2 := snd (ll_reload LLSIZE w1) in
             fst (ll_reload LLSIZE w1) = 0 /\ at_eof w2 /\ lib w2 = lib w /\
             file_offset w2 = file_offset w /\
             (read_count (os w) < read_count (os w2))%nat).
  { intros w1 [Hfd1 [Hn1 [Hc1 [o1 [Ho1 [Hr1 [H01 Hlen1]]]]]]] Hl Hf Hcnt.
    destruct (ll_reload_at_eof w1 o1 Hfd1 Ho1 Hr1 H01 Hlen1) as [R [E [G [F C]]]].
    cbv zeta. split; [exact R|]. split; [exact E|].
    split; [rewrite G, Hl; symmetry; exact Hg|].
    split; [congruence|lia]. }
  cbv zeta.
  destruct ((buf_start (lib w) =? 0) && (num_recs (lib w) =? 0)).
  - assert (Hl1 : lib (snd (ll_reload LLSIZE w)) = lib w) by (rewrite G1; symmetry; exact Hg).
    destruct (Hstep (snd (ll_reload LLSIZE w)) E1 Hl1 F1 ltac:(lia))
      as [R2 [E2 [G2 [F2 C2]]]].
    rewrite Hl1, Hn, Hc. cbn [Z.eqb]. rewrite R2. cbn [Z.eqb fst snd].
    auto.
  - assert (Hw : at_eof w) by (unfold at_eof; eauto 10).
    destruct (Hstep w Hw eq_refl eq_refl ltac:(lia)) as [R2 [E2 [G2 [F2 C2]]]].
    rewrite Hn, Hc. cbn [Z.eqb]. rewrite R2. cbn [Z.eqb fst snd].
    auto.
Qed.

(** A [read] through an open, readable descriptor keeps it open on the
    same file and moves the offset forward. *)
Lemma ll_reload_keeps_open w o :
  open_on w o -> f_readable (of_file o) = true -> 0 <= of_pos o ->
  let w' := snd (ll_reload LLSIZE w) in
  ll_fd (lib w') = ll_fd (lib w) /\
  exists o', open_on w' o' /\ f_readable (of_file o') = true /\ 0 <= of_pos o'.
Proof.
  intros Ho Hr H0 w'. subst w'. rewrite (ll_reload_readable w o Ho Hr).
  cbn [snd lib ll_fd]. split; [reflexivity|].
  eexists. unfold open_on. cbn [lib os ll_fd k_fdt].
  rewrite fdt_get_set_same.
  repeat split; cbn [of_file of_pos]; [assumption|lia].
Qed.

(** A reload that finds no whole record leaves the store at the end of
    the file. *)
Lemma ll_reload_zero_at_eof w o :
  ll_fd (lib w) <> -1 ->
  open_on w o -> f_readable (of_file o) = true -> 0 <= of_pos o ->
  fst (ll_reload LLSIZE w) = 0 -> at_eof (snd (ll_reload LLSIZE w)).
Proof.
  intros Hfd Ho Hr H0. rewrite (ll_reload_readable w o Ho Hr). cbn [fst snd].
  intros Hz.
  pose proof (delivered_length (NRECS * LLSIZE) o ltac:(unfold NRECS; lia)) as Hn.
  unfold at_eof, open_on. cbn [lib os ll_fd num_recs cur_rec k_fdt].
  repeat (split; [solve [auto]|]).
  eexists. rewrite fdt_get_set_same.
  repeat split; cbn [of_file of_pos]; [assumption|lia|].
  apply delivered_short; [assumption|unfold NRECS; lia|].
  apply Z.div_small_iff in Hz; [|lia].
  unfold NRECS in *. lia.
Qed.

Lemma ll_read_null_at_eof w o :
  ll_fd (lib w) <> -1 ->
  open_on w o -> f_readable (of_file o) = true -> 0 <= of_pos o ->
  fst (ll_read LLSIZE w) = LL_NULL -> at_eof (snd (ll_read LLSIZE w)).
Proof.
  intros Hfd Ho Hr H0. rewrite ll_read_unfold.
  apply Z.eqb_neq in Hfd as Hfdb. rewrite Hfdb. cbv zeta.
  set (w1 := if (buf_start (lib w) =? 0) && (num_recs (lib w) =? 0)
             then snd (ll_reload LLSIZE w) else w).
  assert (H1 : ll_fd (lib w1) <> -1 /\
               exists o1, open_on w1 o1 /\ f_readable (of_file o1) = true /\
                          0 <= of_pos o1).
  { subst w1. destruct ((buf_start (lib w) =? 0) && (num_recs (lib w) =? 0)).
    - destruct (ll_reload_keeps_open w o Ho Hr H0) as [E X]. split; [congruence|exact X].
    - eauto. }
  destruct H1 as [Hfd1 [o1 [Ho1 [Hr1 H01]]]].
  destruct (cur_rec (lib w1) =? num_recs (lib w1)).
  - destruct (fst (ll_reload LLSIZE w1) =? 0) eqn:Eg; cbn [fst snd]; [|discriminate].
    intros _. apply Z.eqb_eq in Eg. eapply ll_reload_zero_at_eof; eassumption.
  - cbn [fst snd]. discriminate.
Qed.

Lemma ll_open_found g files fdt trace path f :
  lookup_file path files = Some f ->
  ll_open path (mkWorld g (mkKernel files fdt trace)) =
    (lowest_free_fd fdt,
     mkWorld (mkGlobals (llbuf g) 0 0 0 (lowest_free_fd fdt))
             (mkKernel files (fdt_set (lowest_free_fd fdt) (mkOfd f 0) fdt)
                       (SysOpen path (lowest_free_fd fdt) :: trace))).
Proof.
  intros Hf. unfold ll_open, sys_open. autounfold with llmonad. unfold sys_open.
  cbn [os lib k_files k_fdt k_trace]. rewrite Hf. reflexivity.
Qed.

(** C10.  Whenever a file is open and [rec] equals [cur_rec], [ll_seek]
    returns 0 and leaves everything as it was, so no system call is
    made; in particular after [ll_open] of an empty file [ll_seek(0)]
    succeeds although the file holds no record 0, and the absence only
    shows when the following [ll_read] returns [LL_NULL]. *)
Theorem ll_seek_fast_path_succeeds_without_record :
  (forall w rec,
      ll_fd (lib w) <> -1 -> rec = cur_rec (lib w) ->
      ll_seek LLSIZE rec w = (0, w)) /\
  (forall g files fdt trace path f,
      lookup_file path files = Some f ->
      f_data f = [] -> f_readable f = true ->
      let w1 := snd (ll_open path (mkWorld g (mkKernel files fdt trace))) in
      fst (ll_open path (mkWorld g (mkKernel files fdt trace))) <> -1 /\
      file_record LLSIZE f 0 = None /\
      ll_seek LLSIZE 0 w1 = (0, w1) /\
      fst (ll_read LLSIZE (snd (ll_seek LLSIZE 0 w1))) = LL_NULL).
Proof.
  split; [intros w rec; apply ll_seek_fast|].
  intros g files fdt trace path f Hf Hd Hr w1.
  pose proof (lowest_free_fd_range fdt) as Hfd.
  subst w1. rewrite (ll_open_found g files fdt trace path f Hf).
  cbn [fst snd].
  split; [lia|]. split.
  { unfold file_record. rewrite Hd. cbn [length Z.of_nat].
    replace ((0 + 1) * LLSIZE <=? 0) with false; [reflexivity|].
    symmetry. apply Z.leb_gt. lia. }
  rewrite ll_seek_fast by (cbn [lib ll_fd cur_rec]; lia).
  split; [reflexivity|]. cbn [snd].
  apply ll_read_at_eof. unfold at_eof, open_on.
  cbn [lib os ll_fd num_recs cur_rec k_fdt].
  split; [lia|]. split; [reflexivity|]. split; [reflexivity|].
  exists (mkOfd f 0). rewrite fdt_get_set_same. cbn [of_file of_pos].
  rewrite Hd. cbn [length Z.of_nat]. repeat split; auto; lia.
Qed.

(** C7 (amended).  Once an [ll_read] on an open, readable file has
    returned [LL_NULL] because its reload found no whole record, every
    later [ll_read] (with no [ll_seek] in between) returns [LL_NULL]
    again and leaves the statics and the read offset of the file as
    they were; each of these calls still issues at least one further
    [read]. *)
Theorem ll_read_after_end_of_file w o :
  ll_fd (lib w) <> -1 ->
  open_on w o -> f_readable (of_file o) = true -> 0 <= of_pos o ->
  fst (ll_read LLSIZE w) = LL_NULL ->
  forall n,
    let w0 := snd (ll_read LLSIZE w) in
    let wn := Nat.iter n (fun x => snd (ll_read LLSIZE x)) w0 in
    fst (ll_read LLSIZE wn) = LL_NULL /\
    lib (snd (ll_read LLSIZE wn)) = lib w0 /\
    file_offset (snd (ll_read LLSIZE wn)) = file_offset w0 /\
    (read_count (os wn) < read_count (os (snd (ll_read LLSIZE wn))))%nat.
Proof.
  intros Hfd Ho Hr H0 Hnull n w0 wn.
  pose proof (ll_read_null_at_eof w o Hfd Ho Hr H0 Hnull) as He. fold w0 in He.
  assert (Hinv : at_eof wn /\ lib wn = lib w0 /\ file_offset wn = file_offset w0).
  { subst wn. induction n as [|n IH]; [now auto|].
    rewrite Nat.iter_succ. destruct IH as [IHe [IHl IHf]].
    destruct (ll_read_at_eof _ IHe) as [_ [E [L [F _]]]].
    split; [exact E|]. split; congruence. }
  destruct Hinv as [Hen [Hl Hf]].
  destruct (ll_read_at_eof _ Hen) as [R [_ [L [F C]]]].
  split; [exact R|]. split; [congruence|]. split; [congruence|exact C].
Qed.

(** C8 (amended).  Let a file be open, [rec] be non-negative, different
    from [cur_rec] and outside the buffer, and [P] be
    [floor(rec / NRECS) * NRECS].  When [lseek] to [P * LLSIZE] fails,
    [ll_seek] returns -1 and leaves the statics untouched.  When the
    file is seekable and readable and [P * LLSIZE] is at or past its
    end, [ll_seek] returns -1 and leaves the window empty
    ([num_recs = 0], [cur_rec = 0]) with [buf_start = P]. *)
Theorem ll_seek_no_such_record w rec :
  0 <= rec < 2 ^ 31 ->
  ll_fd (lib w) <> -1 -> rec <> cur_rec (lib w) ->
  outside_buffer (lib w) rec = true ->
  let page := rec / NRECS * NRECS in
  let r := fst (ll_seek LLSIZE rec w) in
  let w' := snd (ll_seek LLSIZE rec w) in
  (fst (sys_lseek (ll_fd (lib w)) (page * LLSIZE) (os w)) = -1 ->
   r = -1 /\ lib w' = lib w) /\
  (forall o,
      open_on w o ->
      f_seekable (of_file o) = true -> f_readable (of_file o) = true ->
      Z.of_nat (length (f_data (of_file o))) <= page * LLSIZE ->
      r = -1 /\ num_recs (lib w') = 0 /\ cur_rec (lib w') = 0 /\
      buf_start (lib w') = page).
Proof.
  intros Hr Hfd Hc Ho page r w'. subst r w'.
  pose proof (ll_seek_outside w rec Hr Hfd Hc Ho) as Hs. cbv zeta in Hs.
  fold page in Hs.
  assert (Hpage : 0 <= page * LLSIZE).
  { subst page. unfold NRECS.
    assert (0 <= rec / 512) by (apply Z.div_pos; lia). nia. }
  clearbody page.
  split.
  - intros Hfail.
    destruct (sys_lseek (ll_fd (lib w)) (page * LLSIZE) (os w)) as [r k1].
    cbn [fst] in Hfail. subst r. rewrite Hs. cbn [Z.eqb fst snd lib]. auto.
  - intros o Hopen Hseek Hread Hlen.
    assert (El : sys_lseek (ll_fd (lib w)) (page * LLSIZE) (os w) =
              (page * LLSIZE,
               mkKernel (k_files (os w))
                 (fdt_set (ll_fd (lib w)) (mkOfd (of_file o) (page * LLSIZE))
                    (k_fdt (os w)))
                 (SysLseek (ll_fd (lib w)) (page * LLSIZE) (page * LLSIZE)
                    :: k_trace (os w)))).
    { unfold sys_lseek. unfold open_on in Hopen. rewrite Hopen, Hseek.
      replace (0 <=? page * LLSIZE) with true; [reflexivity|].
      symmetry. apply Z.leb_le. exact Hpage. }
    rewrite El in Hs.
    assert (Hne : (page * LLSIZE =? -1) = false) by (apply Z.eqb_neq; lia).
    rewrite Hne in Hs.
    set (w1 := mkWorld _ _) in Hs.
    assert (Ho1 : open_on w1 (mkOfd (of_file o) (page * LLSIZE))).
    { unfold open_on. subst w1. cbn [lib os ll_fd k_fdt]. apply fdt_get_set_same. }
    destruct (ll_reload_at_eof w1 _ Hfd Ho1 Hread Hpage Hlen) as [R [_ [G _]]].
    destruct (ll_reload LLSIZE w1) as [got w2]. cbn [fst snd] in R, G. subst got.
    cbn [Z.leb Z.compare] in Hs. rewrite Hs. cbn [fst snd]. rewrite G.
    cbn [num_recs cur_rec buf_start]. subst w1. cbn [lib buf_start]. auto.
Qed.

(** *** Where the window invariant holds, and what a page load brings *)

Lemma ll_open_window_inv path w : window_inv (lib (snd (ll_open path w))).
Proof.
  unfold ll_open. autounfold with llmonad.
  destruct (sys_open path (os w)) as [fd k]. cbn [snd lib num_recs cur_rec].
  unfold window_inv, NRECS. cbn [num_recs cur_rec]. lia.
Qed.

Lemma ll_reload_result w o :
  open_on w o -> f_readable (of_file o) = true ->
  let w' := snd (ll_reload LLSIZE w) in
  fst (ll_reload LLSIZE w) = num_recs (lib w') /\
  cur_rec (lib w') = 0 /\ 0 <= num_recs (lib w') <= NRECS /\
  buf_start (lib w') = buf_start (lib w).
Proof.
  intros Ho Hr w'. subst w'. rewrite (ll_reload_readable w o Ho Hr).
  cbn [fst snd lib num_recs cur_rec buf_start].
  pose proof (delivered_length (NRECS * LLSIZE) o ltac:(unfold NRECS; lia)) as Hn.
  pose proof (recs_of_read_bounds _ Hn) as Hb.
  rewrite recs_of_read_success in Hb by assumption. auto.
Qed.

(** [ll_read] keeps the invariant on a readable file. *)
Lemma ll_read_window_inv w o :
  open_on w o -> f_readable (of_file o) = true -> 0 <= of_pos o ->
  window_inv (lib w) -> window_inv (lib (snd (ll_read LLSIZE w))).
Proof.
  intros Ho Hr H0 Hinv. rewrite ll_read_unfold.
  destruct (ll_fd (lib w) =? -1); [exact Hinv|]. cbv zeta.
  set (w1 := if (buf_start (lib w) =? 0) && (num_recs (lib w) =? 0)
             then snd (ll_reload LLSIZE w) else w).
  assert (H1 : window_inv (lib w1) /\
               exists o1, open_on w1 o1 /\ f_readable (of_file o1) = true).
  { subst w1. destruct ((buf_start (lib w) =? 0) && (num_recs (lib w) =? 0)).
    - destruct (ll_reload_result w o Ho Hr) as [_ [Hc [Hn _]]].
      destruct (ll_reload_keeps_open w o Ho Hr H0) as [_ [o1 [Ho1 [Hr1 _]]]].
      split; [unfold window_inv; lia|eauto].
    - eauto. }
  destruct H1 as [Hinv1 [o1 [Ho1 Hr1]]]. unfold window_inv in Hinv1.
  destruct (cur_rec (lib w1) =? num_recs (lib w1)) eqn:Ec.
  - destruct (ll_reload_result w1 o1 Ho1 Hr1) as [Hg [Hc [Hn _]]].
    destruct (fst (ll_reload LLSIZE w1) =? 0) eqn:Eg; cbn [fst snd lib].
    + unfold window_inv. lia.
    + apply Z.eqb_neq in Eg. unfold window_inv. cbn [cur_rec num_recs].
      rewrite Hc. unfold int_add. rewrite to_int_id by (unfold in_int; lia). lia.
  - apply Z.eqb_neq in Ec. cbn [fst snd lib]. unfold window_inv.
    cbn [cur_rec num_recs]. unfold int_add, NRECS in *.
    rewrite to_int_id by (unfold in_int; lia). lia.
Qed.

(** [ll_seek] keeps the invariant whenever it does not take the
    "outside buffer" branch; inside the buffer the cursor it sets is
    strictly below [num_recs]. *)
Lemma ll_seek_window_inv_no_reload w rec :
  0 <= buf_start (lib w) <= 2 ^ 31 - 1 - NRECS ->
  ll_fd (lib w) = -1 \/ rec = cur_rec (lib w) \/ outside_buffer (lib w) rec = false ->
  window_inv (lib w) -> window_inv (lib (snd (ll_seek LLSIZE rec w))).
Proof.
  intros Hb Hcase Hinv.
  destruct (Z.eq_dec (ll_fd (lib w)) (-1)) as [Hfd|Hfd].
  { now rewrite ll_seek_no_file. }
  destruct (Z.eq_dec rec (cur_rec (lib w))) as [Hc|Hc].
  { now rewrite ll_seek_fast. }
  destruct Hcase as [?|[?|Ho]]; try contradiction.
  rewrite ll_seek_inside by assumption. cbn [snd lib].
  unfold window_inv in *. cbn [cur_rec num_recs].
  unfold outside_buffer in Ho. apply orb_false_iff in Ho. destruct Ho as [Hlo Hhi].
  apply Z.ltb_ge in Hlo. rewrite Z.gtb_ltb in Hhi. apply Z.ltb_ge in Hhi.
  unfold int_sub, int_add, NRECS in *.
  rewrite (to_int_id (buf_start (lib w) + num_recs (lib w))) in Hhi
    by (unfold in_int; lia).
  rewrite to_int_id in Hhi by (unfold in_int; lia).
  rewrite to_int_id by (unfold in_int; lia). lia.
Qed.

(** When [ll_seek] reloads from a seekable, readable file, every slot
    below [num_recs] holds the file record [buf_start + j]. *)
Lemma ll_seek_loads_page w rec o :
  0 <= rec < 2 ^ 31 ->
  ll_fd (lib w) <> -1 -> rec <> cur_rec (lib w) ->
  outside_buffer (lib w) rec = true ->
  open_on w o -> f_seekable (of_file o) = true -> f_readable (of_file o) = true ->
  let w' := snd (ll_seek LLSIZE rec w) in
  buf_start (lib w') = rec / NRECS * NRECS /\
  0 <= num_recs (lib w') <= NRECS /\
  forall j, 0 <= j < num_recs (lib w') ->
    window_slot LLSIZE (lib w') j = file_record LLSIZE (of_file o) (buf_start (lib w') + j) /\
    window_slot LLSIZE (lib w') j <> None.
Proof.
  intros Hr Hfd Hc Hout Hopen Hseek Hread w'. subst w'.
  pose proof (ll_seek_outside w rec Hr Hfd Hc Hout) as Hs. cbv zeta in Hs.
  set (page := rec / NRECS * NRECS) in *.
  assert (Hpage : 0 <= page).
  { subst page. unfold NRECS. assert (0 <= rec / 512) by (apply Z.div_pos; lia). lia. }
  clearbody page.
  assert (El : sys_lseek (ll_fd (lib w)) (page * LLSIZE) (os w) =
            (page * LLSIZE,
             mkKernel (k_files (os w))
               (fdt_set (ll_fd (lib w)) (mkOfd (of_file o) (page * LLSIZE))
                  (k_fdt (os w)))
               (SysLseek (ll_fd (lib w)) (page * LLSIZE) (page * LLSIZE)
                  :: k_trace (os w)))).
  { unfold sys_lseek. unfold open_on in Hopen. rewrite Hopen, Hseek.
    replace (0 <=? page * LLSIZE) with true; [reflexivity|].
    symmetry. apply Z.leb_le. nia. }
  rewrite El in Hs.
  assert (Hne : (page * LLSIZE =? -1) = false) by (apply Z.eqb_neq; nia).
  rewrite Hne in Hs.
  set (w1 := mkWorld _ _) in Hs.
  set (o1 := mkOfd (of_file o) (page * LLSIZE)).
  assert (Ho1 : open_on w1 o1).
  { unfold open_on. subst w1. cbn [lib os ll_fd k_fdt]. apply fdt_get_set_same. }
  rewrite (ll_reload_readable w1 o1 Ho1 Hread) in Hs.
  set (bytes := delivered (NRECS * LLSIZE) o1) in *.
  set (n := Z.of_nat (length bytes)) in *.
  assert (Hn : 0 <= n <= NRECS * LLSIZE).
  { subst n bytes. apply delivered_length. unfold NRECS. lia. }
  assert (Hq : 0 <= n / LLSIZE <= NRECS).
  { pose proof (recs_of_read_bounds _ Hn) as Hb.
    now rewrite recs_of_read_success in Hb. }
  assert (Hslots : forall buf j, 0 <= j < n / LLSIZE ->
             let g := mkGlobals (overwrite bytes buf) (n / LLSIZE) 0 page (ll_fd (lib w)) in
             forall c, window_slot LLSIZE
                         (mkGlobals (llbuf g) (num_recs g) c (buf_start g) (ll_fd g)) j
                       = file_record LLSIZE (of_file o) (page + j) /\
                       window_slot LLSIZE
                         (mkGlobals (llbuf g) (num_recs g) c (buf_start g) (ll_fd g)) j
                       <> None).
  { intros buf j Hj g c. subst g. cbn [llbuf num_recs buf_start ll_fd].
    assert (Hfit : (j + 1) * LLSIZE <= n).
    { pose proof (Z.mul_div_le n LLSIZE LLSIZE_pos). nia. }
    assert (Hdata : (page + j + 1) * LLSIZE <= Z.of_nat (length (f_data (of_file o)))).
    { subst n bytes. unfold delivered in Hfit.
      rewrite length_firstn, length_skipn in Hfit. cbn [of_pos of_file o1] in Hfit.
      lia. }
    unfold window_slot, load_record, file_record. cbn [llbuf].
    assert (Hov : Z.of_nat (length bytes) <= Z.of_nat (length (overwrite bytes buf))).
    { unfold overwrite. rewrite length_app. lia. }
    replace ((0 <=? j * LLSIZE)
             && (j * LLSIZE + LLSIZE <=? Z.of_nat (length (overwrite bytes buf))))
      with true
      by (symmetry; apply andb_true_iff; split; apply Z.leb_le; fold n in Hov; nia).
    replace ((0 <=? page + j)
             && ((page + j + 1) * LLSIZE <=? Z.of_nat (length (f_data (of_file o)))))
      with true
      by (symmetry; apply andb_true_iff; split; apply Z.leb_le; lia).
    split; [|discriminate]. f_equal.
    unfold bytes.
    rewrite (delivered_slot (NRECS * LLSIZE) o1 j LLSIZE buf);
      [|cbn [of_pos o1]; nia|exact LLSIZE_pos|lia|exact Hfit].
    cbn [of_pos of_file o1]. f_equal. f_equal. lia. }
  destruct (n / LLSIZE <=? 0) eqn:Eg; rewrite Hs; cbn [snd lib buf_start num_recs].
  - apply Z.leb_le in Eg. split; [reflexivity|]. split; [lia|]. intros j Hj. lia.
  - split; [reflexivity|]. split; [lia|]. intros j Hj.
    subst w1. cbn [lib llbuf]. apply (Hslots (llbuf (lib w)) j Hj).
Qed.

End StoreProperties.

(** [ll_close] before any successful [ll_open]: nothing is closed. *)
Lemma ll_close_unopened w :
  ll_fd (lib w) = -1 -> ll_close w = (0, w).
Proof.
  intros H. unfold ll_close. autounfold with llmonad. cbn [fst snd]. now rewrite H.
Qed.

(** [ll_close] of an open descriptor returns 0 and keeps [ll_fd]; the
    next [ll_close] passes the same number to [close] and returns -1. *)
Lemma ll_close_after_close w o :
  ll_fd (lib w) <> -1 -> open_on w o ->
  fst (ll_close w) = 0 /\
  ll_fd (lib (snd (ll_close w))) = ll_fd (lib w) /\
  fst (ll_close (snd (ll_close w))) = -1.
Proof.
  intros Hfd Ho. apply Z.eqb_neq in Hfd. unfold open_on in Ho.
  unfold ll_close. autounfold with llmonad. unfold sys_close.
  cbn [fst snd lib os]. rewrite Hfd. cbn [negb]. rewrite Ho.
  cbn [fst snd lib os k_fdt]. rewrite Hfd. cbn [negb fst snd lib os k_fdt].
  rewrite fdt_get_del_same. auto.
Qed.

Lemma ll_open_missing g files fdt trace path :
  lookup_file path files = None ->
  ll_open path (mkWorld g (mkKernel files fdt trace)) =
    (-1, mkWorld (mkGlobals (llbuf g) 0 0 0 (-1))
                 (mkKernel files fdt (SysOpen path (-1) :: trace))).
Proof.
  intros H. unfold ll_open. autounfold with llmonad. unfold sys_open.
  cbn [os lib k_files k_fdt k_trace]. rewrite H. reflexivity.
Qed.

(** On a read error [num_recs] receives [(2^64 - 1) / LLSIZE] reduced to
    an [int]: [amt_read] is set to -1, and the division by the [size_t]
    value [LLSIZE] converts it to [2^64 - 1] first. *)
Lemma recs_of_read_error LLSIZE r :
  - 2 ^ 31 <= r < 0 ->
  recs_of_read LLSIZE r = to_int ((2 ^ 64 - 1) / to_size_t LLSIZE).
Proof.
  intros Hr. unfold recs_of_read.
  rewrite (to_int_id r) by (unfold in_int; lia).
  destruct (r <? 0) eqn:E; [|apply Z.ltb_ge in E; lia].
  reflexivity.
Qed.

(** ** Sessions on concrete files *)

Import Scenario.

Lemma linux_llsize_ok : 0 < LLSIZE /\ NRECS * LLSIZE < 2 ^ 31.
Proof. unfold LLSIZE, NRECS. lia. Qed.

(** Closed statements about a session are settled by running it. *)
Ltac run_session :=
  lazymatch goal with
  | |- _ /\ _ => split; run_session
  | |- _ <> _ => vm_compute; discriminate
  | |- (_ <= _)%Z => vm_compute; discriminate
  | |- _ => vm_compute; reflexivity
  end.

(** The offset law on a file of 1024 records: [ll_seek(600)] right after
    [ll_open] seeks to byte [512 * 292], reads the page, and leaves
    [buf_start = 512], [cur_rec = 88]; the following [ll_read] yields
    record 600. *)
Example ll_seek_600 :
  let w := after (ll_open lastlog_path ;; ll_seek LLSIZE 600) (boot (regular 1024)) in
  k_trace (os w) =
    [SysRead 3 149504 149504; SysLseek 3 149504 149504; SysOpen lastlog_path 3] /\
  (buf_start (lib w), num_recs (lib w), cur_rec (lib w)) = (512, 512, 88) /\
  yielded (after (ll_read LLSIZE) w) (result (ll_read LLSIZE) w) = Some 600.
Proof.
  cbv zeta. run_session.
Qed.

(** C1.  A file of 1024 records; [ll_seek(512)] then [ll_read] leave the
    window at [buf_start = 512], [cur_rec = 1], so the record it would
    yield next is 513.  [ll_seek(1)] is then the no-op fast path (it
    returns 0 and changes nothing) although [buf_start + cur_rec] is not
    1, and the following [ll_read] yields record 513.  And on a file of
    2000 records, after [ll_seek(1023)] and an [ll_read] that yields
    record 1023, [ll_seek(1024)] calls [lseek]. *)
Theorem ll_seek_fast_path_ignores_buf_start :
  let w := after (ll_open lastlog_path ;; ll_seek LLSIZE 512 ;; ll_read LLSIZE)
                 (boot (regular 1024)) in
  let v := after (ll_open lastlog_path ;; ll_seek LLSIZE 1023 ;; ll_read LLSIZE)
                 (boot (regular 2000)) in
  ((buf_start (lib w), num_recs (lib w), cur_rec (lib w)) = (512, 512, 1) /\
   ll_seek LLSIZE 1 w = (0, w) /\
   yielded (after (ll_read LLSIZE) w) (result (ll_read LLSIZE) w) = Some 513) /\
  (yielded v (result (ll_open lastlog_path ;; ll_seek LLSIZE 1023 ;; ll_read LLSIZE)
                     (boot (regular 2000))) = Some 1023 /\
   (buf_start (lib v), num_recs (lib v), cur_rec (lib v)) = (512, 512, 512) /\
   lseek_count (os (after (ll_seek LLSIZE 1024) v)) = S (lseek_count (os v))).
Proof.
  cbv zeta. split; [split; [|split]|]; [run_session| |run_session|run_session].
  apply ll_seek_fast; [vm_compute; discriminate|vm_compute; reflexivity].
Qed.

(** C2.  A file of 514 records read sequentially.  After 513 calls of
    [ll_read] the second page has been loaded by the end-of-buffer
    reload, which does not touch [buf_start]: [buf_start = 0],
    [num_recs = 2], [cur_rec = 1], window slot 0 holds file record 512
    and not file record 0, the next [ll_read] yields record 513 (not
    record [buf_start + cur_rec = 1]), and [ll_seek(0)], which finds 0
    inside the buffer and reads nothing, is followed by an [ll_read]
    that yields record 512. *)
Theorem sequential_reload_leaves_buf_start :
  let f := regular 514 in
  let w := after (ll_open lastlog_path ;; ll_read_times 513) (boot f) in
  (buf_start (lib w), num_recs (lib w), cur_rec (lib w)) = (0, 2, 1) /\
  window_slot LLSIZE (lib w) 0 = file_record LLSIZE f 512 /\
  window_slot LLSIZE (lib w) 0 <> file_record LLSIZE f 0 /\
  yielded (after (ll_read LLSIZE) w) (result (ll_read LLSIZE) w) = Some 513 /\
  read_count (os (after (ll_seek LLSIZE 0) w)) = read_count (os w) /\
  yielded (after (ll_seek LLSIZE 0 ;; ll_read LLSIZE) w)
          (result (ll_seek LLSIZE 0 ;; ll_read LLSIZE) w) = Some 512.
Proof.
  cbv zeta. run_session.
Qed.

(** C3.  A file of 10 records.  [ll_seek(25)] reloads page 0, gets 10
    records, returns 0 and sets [cur_rec = 25 > num_recs = 10]; the
    following [ll_read] does not take the end-of-buffer path and returns
    the address of slot 25, which no [read] has filled. *)
Theorem ll_seek_sets_cursor_past_num_recs :
  let w := after (ll_open lastlog_path) (boot (regular 10)) in
  let w' := after (ll_seek LLSIZE 25) w in
  result (ll_seek LLSIZE 25) w = 0 /\
  (buf_start (lib w'), num_recs (lib w'), cur_rec (lib w')) = (0, 10, 25) /\
  result (ll_read LLSIZE) w' = LLP (25 * LLSIZE) /\
  file_record LLSIZE (regular 10) 25 = None /\
  cur_rec (lib (after (ll_read LLSIZE) w')) = 26.
Proof.
  cbv zeta. run_session.
Qed.

(** C4.  The lastlog path names a directory: [open] succeeds and [read]
    fails.  [ll_reload] then returns 470681347 and stores it in
    [num_recs], and [ll_read] returns the address of slot 0 rather than
    [LL_NULL]. *)
Theorem ll_reload_read_error_count :
  let w := after (ll_open lastlog_path) (boot directory) in
  k_trace (os (after (ll_reload LLSIZE) w)) =
    [SysRead 3 (NRECS * LLSIZE) (-1); SysOpen lastlog_path 3] /\
  result (ll_reload LLSIZE) w = 470681347 /\
  num_recs (lib (after (ll_reload LLSIZE) w)) = 470681347 /\
  result (ll_read LLSIZE) w = LLP 0.
Proof.
  cbv zeta. run_session.
Qed.

(** C6.  After a successful [ll_open] the first [ll_close] returns 0;
    [ll_fd] keeps the descriptor number, so a second [ll_close] calls
    [close] on it again and returns -1. *)
Theorem ll_close_twice :
  let w := after (ll_open lastlog_path) (boot (regular 10)) in
  result ll_close w = 0 /\
  ll_fd (lib (after ll_close w)) = 3 /\
  result ll_close (after ll_close w) = -1 /\
  k_trace (os (after ll_close (after ll_close w))) =
    [SysClose 3 (-1); SysClose 3 0; SysOpen lastlog_path 3].
Proof.
  cbv zeta. run_session.
Qed.

(** C7, as stated, fails: on an empty file the first [ll_read] returns
    [LL_NULL] after reloads that find nothing, and the second [ll_read]
    returns [LL_NULL] after two more calls of [read]. *)
Lemma ll_read_past_end_reads_again :
  let w := after (ll_open lastlog_path ;; ll_read LLSIZE) (boot (regular 0)) in
  result (ll_open lastlog_path ;; ll_read LLSIZE) (boot (regular 0)) = LL_NULL /\
  result (ll_read LLSIZE) w = LL_NULL /\
  read_count (os w) = 2%nat /\
  read_count (os (after (ll_read LLSIZE) w)) = 4%nat /\
  read_count (os (after (ll_read LLSIZE) w)) <> read_count (os w).
Proof.
  cbv zeta. run_session.
Qed.

(** C8, as stated, fails twice.  On an empty file the page of record 0
    starts at the end of the file, yet [ll_seek(0)] right after
    [ll_open] returns 0.  On a FIFO holding 3 records, after one
    [ll_read], [ll_seek(600)] fails in [lseek] and returns -1, and the
    window still counts 3 records. *)
Lemma ll_seek_past_end_counterexample :
  let w := after (ll_open lastlog_path) (boot (regular 0)) in
  let v := after (ll_open lastlog_path ;; ll_read LLSIZE) (boot (fifo 3)) in
  (Z.of_nat (length (f_data (regular 0))) <= 0 / NRECS * NRECS * LLSIZE /\
   result (ll_seek LLSIZE 0) w = 0 /\
   result (ll_seek LLSIZE 0) w <> -1) /\
  (result (ll_seek LLSIZE 600) v = -1 /\
   k_trace (os (after (ll_seek LLSIZE 600) v)) =
     SysLseek 3 (512 * LLSIZE) (-1) :: k_trace (os v) /\
   num_recs (lib (after (ll_seek LLSIZE 600) v)) = 3 /\
   num_recs (lib (after (ll_seek LLSIZE 600) v)) <> 0).
Proof.
  cbv zeta. run_session.
Qed.

(** ** alastlog.c: check_string *)

Import Alastlog.

Lemma store_length i v l : length (store i v l) = length l.
Proof.
  revert i. induction l as [|c l IH]; intros [|i]; simpl; auto.
Qed.

Lemma nth_store_same i v l d :
  (i < length l)%nat -> nth i (store i v l) d = v.
Proof.
  revert i. induction l as [|c l IH]; intros [|i] H; simpl in *; try lia; auto.
  apply IH. lia.
Qed.

Lemma nth_store_other i j v l d :
  i <> j -> nth j (store i v l) d = nth j l d.
Proof.
  revert i j. induction l as [|c l IH]; intros [|i] [|j] H; simpl; auto; try lia.
Qed.

(** A NUL at index [i] bounds the C string by [i]. *)
Lemma c_string_bound l i :
  (i < length l)%nat -> nth i l x00 = x00 -> (length (c_string l) <= i)%nat.
Proof.
  revert i. induction l as [|c l IH]; intros i Hi Hn; simpl in *; [lia|].
  destruct (Byte.eqb c x00) eqn:E; simpl; [lia|].
  destruct i as [|i].
  - subst c. discriminate.
  - apply le_n_S. apply IH; [lia|assumption].
Qed.

(** C9.  [check_string(NULL, size)] is the empty string and touches no
    array.  For an array [b] and [1 <= size <= length b],
    [check_string(b, size)] returns [b] with index [size - 1] holding
    NUL and every other byte as it was ([b] itself when the NUL was
    already there), so the string returned ends before index [size]. *)
Theorem check_string_terminated :
  (forall size, check_string CNull size = Some [x00] /\ c_string [x00] = []) /\
  (forall b size,
      1 <= size <= Z.of_nat (length b) -> size < 2 ^ 31 ->
      exists out,
        check_string (CBuf b) size = Some out /\
        length out = length b /\
        nth (Z.to_nat (size - 1)) out x00 = x00 /\
        (forall j, j <> Z.to_nat (size - 1) -> nth j out x00 = nth j b x00) /\
        (nth (Z.to_nat (size - 1)) b x00 = x00 -> out = b) /\
        Z.of_nat (length (c_string out)) < size).
Proof.
  split; [intros size; split; reflexivity|].
  intros b size Hs Hi. unfold check_string.
  unfold int_sub. rewrite to_int_id by (unfold in_int; lia).
  replace ((0 <=? size - 1) && (size - 1 <? Z.of_nat (length b))) with true.
  2:{ symmetry. apply andb_true_iff. split; [apply Z.leb_le|apply Z.ltb_lt]; lia. }
  assert (Hlt : (Z.to_nat (size - 1) < length b)%nat) by lia.
  destruct (Byte.eqb (nth (Z.to_nat (size - 1)) b x00) x00) eqn:E; cbn [negb].
  - apply byte_dec_bl in E.
    exists b. repeat split; auto.
    pose proof (c_string_bound b _ Hlt E). lia.
  - exists (store (Z.to_nat (size - 1)) x00 b).
    split; [reflexivity|]. split; [apply store_length|].
    split; [now apply nth_store_same|].
    split; [intros j Hj; apply nth_store_other; congruence|].
    split.
    + intros H. rewrite H in E. discriminate.
    + assert (Hb : (length (c_string (store (Z.to_nat (size - 1)) x00 b))
                    <= Z.to_nat (size - 1))%nat).
      { apply c_string_bound; [now rewrite store_length|now apply nth_store_same]. }
      lia.
Qed.

(** ** Instances

    Each theorem above that carries hypotheses, applied to a concrete
    session with the glibc record size. *)

Lemma ll_seek_reload_offset_witness :
  (* outside the buffer, on a regular file of 1024 records *)
  (let w := after (ll_open lastlog_path) (boot (regular 1024)) in
   let w' := after (ll_seek LLSIZE 600) w in
   outside_buffer (lib w) 600 = true /\
   k_trace (os w') =
     SysRead 3 (NRECS * LLSIZE) (NRECS * LLSIZE)
       :: SysLseek 3 (512 * LLSIZE) (512 * LLSIZE) :: k_trace (os w) /\
   buf_start (lib w') = 512 /\
   file_offset w' = Some (1024 * LLSIZE) /\
   num_recs (lib w') = 512 /\
   result (ll_seek LLSIZE 600) w = 0 /\
   cur_rec (lib w') = 600 - 512) /\
  (* outside the buffer, on a FIFO *)
  (let w := after (ll_open lastlog_path) (boot (fifo 1024)) in
   let w' := after (ll_seek LLSIZE 600) w in
   outside_buffer (lib w) 600 = true /\
   result (ll_seek LLSIZE 600) w = -1 /\ lib w' = lib w /\
   k_trace (os w') = SysLseek 3 (512 * LLSIZE) (-1) :: k_trace (os w)) /\
  (* inside the buffer, which holds records 512 .. 1023 *)
  (let w := after (ll_open lastlog_path ;; ll_seek LLSIZE 600) (boot (regular 1024)) in
   let w' := after (ll_seek LLSIZE 700) w in
   outside_buffer (lib w) 700 = false /\ buf_start (lib w) = 512 /\
   result (ll_seek LLSIZE 700) w = 0 /\ os w' = os w /\
   buf_start (lib w') = 512 /\ cur_rec (lib w') = 700 - 512).
Proof.
  assert (Hr6 : 0 <= 600 < 2 ^ 31) by lia.
  assert (Hr7 : 0 <= 700 < 2 ^ 31) by lia.
  split; [|split].
  - intros w w'.
    assert (Hfd : ll_fd (lib w) <> -1) by (vm_compute; discriminate).
    assert (Hopen : open_on w (mkOfd (regular 1024) 0))
      by (unfold open_on; reflexivity).
    assert (Hc : 600 <> cur_rec (lib w)) by (vm_compute; discriminate).
    assert (Hout : outside_buffer (lib w) 600 = true) by (vm_compute; reflexivity).
    destruct (ll_seek_reload_offset LLSIZE (proj1 linux_llsize_ok)
                (proj2 linux_llsize_ok) w 600 Hr6 Hfd Hc) as [H _].
    destruct (H Hout (mkOfd (regular 1024) 0) Hopen) as [H1 _].
    specialize (H1 eq_refl). cbv zeta in H1.
    destruct H1 as [Ht [Hb [Ho [Hn [Hret Hcur]]]]].
    cbn [of_file regular f_readable] in Ht, Ho, Hn, Hret.
    assert (En : Z.of_nat (length (delivered (NRECS * LLSIZE)
                   (mkOfd (regular 1024) (600 / NRECS * NRECS * LLSIZE))))
                 = NRECS * LLSIZE)
      by (vm_compute; reflexivity).
    rewrite En in Ht, Ho, Hn, Hret.
    assert (Efd : ll_fd (lib w) = 3) by (vm_compute; reflexivity).
    rewrite Efd in Ht.
    change (600 / NRECS * NRECS) with 512 in Ht, Hb, Ho.
    change (recs_of_read LLSIZE (NRECS * LLSIZE)) with 512 in Hn, Hret.
    change (512 <=? 0) with false in Hret. cbv iota in Hret.
    specialize (Hcur Hret). unfold w', after, result. rewrite Hb in Hcur.
    split; [exact Hout|]. split; [exact Ht|]. split; [exact Hb|].
    split; [rewrite Ho; reflexivity|]. split; [exact Hn|].
    split; [exact Hret|exact Hcur].
  - intros w w'.
    assert (Hfd : ll_fd (lib w) <> -1) by (vm_compute; discriminate).
    assert (Hopen : open_on w (mkOfd (fifo 1024) 0))
      by (unfold open_on; reflexivity).
    assert (Hc : 600 <> cur_rec (lib w)) by (vm_compute; discriminate).
    assert (Hout : outside_buffer (lib w) 600 = true) by (vm_compute; reflexivity).
    destruct (ll_seek_reload_offset LLSIZE (proj1 linux_llsize_ok)
                (proj2 linux_llsize_ok) w 600 Hr6 Hfd Hc) as [H _].
    destruct (H Hout (mkOfd (fifo 1024) 0) Hopen) as [_ H2].
    specialize (H2 eq_refl). cbv zeta in H2.
    destruct H2 as [Hret [Hlib Ht]].
    assert (Efd : ll_fd (lib w) = 3) by (vm_compute; reflexivity).
    rewrite Efd in Ht.
    change (600 / NRECS * NRECS) with 512 in Ht.
    split; [exact Hout|]. split; [exact Hret|]. split; [exact Hlib|exact Ht].
  - intros w w'.
    assert (Hfd : ll_fd (lib w) <> -1) by (vm_compute; discriminate).
    assert (Hc : 700 <> cur_rec (lib w)) by (vm_compute; discriminate).
    assert (Hin : outside_buffer (lib w) 700 = false) by (vm_compute; reflexivity).
    assert (Hbs : buf_start (lib w) = 512) by (vm_compute; reflexivity).
    destruct (ll_seek_reload_offset LLSIZE (proj1 linux_llsize_ok)
                (proj2 linux_llsize_ok) w 700 Hr7 Hfd Hc) as [_ H].
    specialize (H Hin ltac:(rewrite Hbs; lia)). cbv zeta in H.
    destruct H as [Hret [Hos [Hb Hcur]]].
    rewrite Hb, Hbs in Hcur. rewrite Hbs in Hb.
    split; [exact Hin|]. split; [exact Hbs|]. split; [exact Hret|].
    split; [exact Hos|]. split; [exact Hb|exact Hcur].
Defined.

Lemma ll_seek_fast_path_succeeds_without_record_witness :
  let w := after (ll_open lastlog_path) (boot (regular 10)) in
  let e := mkWorld (initial_globals LLSIZE)
                   (mkKernel [(lastlog_path, regular 0)] [] []) in
  ll_seek LLSIZE 0 w = (0, w) /\
  (fst (ll_open lastlog_path e) <> -1 /\
   file_record LLSIZE (regular 0) 0 = None /\
   ll_seek LLSIZE 0 (snd (ll_open lastlog_path e)) = (0, snd (ll_open lastlog_path e)) /\
   fst (ll_read LLSIZE (snd (ll_seek LLSIZE 0 (snd (ll_open lastlog_path e))))) = LL_NULL).
Proof.
  intros w e.
  pose proof (ll_seek_fast_path_succeeds_without_record LLSIZE
                (proj1 linux_llsize_ok) (proj2 linux_llsize_ok)) as [Hfast Hempty].
  split.
  - apply Hfast; [vm_compute; discriminate|vm_compute; reflexivity].
  - apply (Hempty (initial_globals LLSIZE) [(lastlog_path, regular 0)] [] []
                  lastlog_path (regular 0)).
    + vm_compute; reflexivity.
    + reflexivity.
    + reflexivity.
Defined.

Lemma ll_read_after_end_of_file_witness :
  let w := after (ll_open lastlog_path) (boot (regular 0)) in
  let w0 := snd (ll_read LLSIZE w) in
  let wn := Nat.iter 2 (fun x => snd (ll_read LLSIZE x)) w0 in
  fst (ll_read LLSIZE w) = LL_NULL /\
  (fst (ll_read LLSIZE wn) = LL_NULL /\
   lib (snd (ll_read LLSIZE wn)) = lib w0 /\
   file_offset (snd (ll_read LLSIZE wn)) = file_offset w0 /\
   (read_count (os wn) < read_count (os (snd (ll_read LLSIZE wn))))%nat).
Proof.
  intros w w0 wn.
  assert (Hnull : fst (ll_read LLSIZE w) = LL_NULL) by (vm_compute; reflexivity).
  split; [exact Hnull|].
  apply (ll_read_after_end_of_file LLSIZE (proj1 linux_llsize_ok)
           (proj2 linux_llsize_ok) w (mkOfd (regular 0) 0)).
  - vm_compute; discriminate.
  - vm_compute; reflexivity.
  - reflexivity.
  - vm_compute; discriminate.
  - exact Hnull.
Defined.

Lemma ll_seek_no_such_record_witness :
  let v := after (ll_open lastlog_path ;; ll_read LLSIZE) (boot (fifo 3)) in
  let w := after (ll_open lastlog_path ;; ll_read LLSIZE) (boot (regular 10)) in
  (fst (ll_seek LLSIZE 600 v) = -1 /\ lib (snd (ll_seek LLSIZE 600 v)) = lib v) /\
  (fst (ll_seek LLSIZE 600 w) = -1 /\
   num_recs (lib (snd (ll_seek LLSIZE 600 w))) = 0 /\
   cur_rec (lib (snd (ll_seek LLSIZE 600 w))) = 0 /\
   buf_start (lib (snd (ll_seek LLSIZE 600 w))) = 600 / NRECS * NRECS).
Proof.
  intros v w.
  assert (Hr : 0 <= 600 < 2 ^ 31) by lia.
  split.
  - apply (ll_seek_no_such_record LLSIZE (proj1 linux_llsize_ok)
             (proj2 linux_llsize_ok) v 600 Hr).
    + vm_compute; discriminate.
    + vm_compute; discriminate.
    + vm_compute; reflexivity.
    + vm_compute; reflexivity.
  - apply (ll_seek_no_such_record LLSIZE (proj1 linux_llsize_ok)
             (proj2 linux_llsize_ok) w 600 Hr)
      with (o := mkOfd (regular 10) (10 * LLSIZE)).
    + vm_compute; discriminate.
    + vm_compute; discriminate.
    + vm_compute; reflexivity.
    + vm_compute; reflexivity.
    + reflexivity.
    + reflexivity.
    + vm_compute; discriminate.
Defined.

Lemma check_string_terminated_witness :
  let line := repeat "a"%byte 32 in
  exists out,
    check_string (CBuf line) UT_LINESIZE = Some out /\
    length out = length line /\
    nth (Z.to_nat (UT_LINESIZE - 1)) out x00 = x00 /\
    (forall j, j <> Z.to_nat (UT_LINESIZE - 1) -> nth j out x00 = nth j line x00) /\
    (nth (Z.to_nat (UT_LINESIZE - 1)) line x00 = x00 -> out = line) /\
    Z.of_nat (length (c_string out)) < UT_LINESIZE.
Proof.
  intros line.
  apply (proj2 check_string_terminated line UT_LINESIZE).
  - vm_compute. split; discriminate.
  - vm_compute. reflexivity.
Defined.


(** ** lllib.c: scans and lookups *)

Section ScanProperties.

Variable LLSIZE : Z.
Hypothesis LLSIZE_pos : 0 < LLSIZE.
Hypothesis buffer_fits_int : NRECS * LLSIZE < 2 ^ 31.

Lemma whole_records_spec f :
  0 <= whole_records LLSIZE f /\
  whole_records LLSIZE f * LLSIZE <= Z.of_nat (length (f_data f))
    < (whole_records LLSIZE f + 1) * LLSIZE.
Proof.
  unfold whole_records. set (len := Z.of_nat (length (f_data f))).
  assert (0 <= len) by (subst len; lia).
  pose proof (Z.div_mod len LLSIZE ltac:(lia)).
  pose proof (Z.mod_pos_bound len LLSIZE LLSIZE_pos).
  assert (0 <= len / LLSIZE) by (apply Z.div_pos; lia).
  nia.
Qed.

Lemma file_record_exists f j :
  0 <= j < whole_records LLSIZE f -> file_record LLSIZE f j <> None.
Proof.
  intros Hj. pose proof (whole_records_spec f) as [_ [Hlo _]].
  unfold file_record.
  replace ((0 <=? j) && ((j + 1) * LLSIZE <=? Z.of_nat (length (f_data f))))
    with true; [discriminate|].
  symmetry. apply andb_true_iff. split; apply Z.leb_le; nia.
Qed.

(** The records a page read delivers: up to [NRECS], as many as the
    file still holds after record [j]. *)
Lemma page_records len j :
  0 <= j -> j * LLSIZE <= len ->
  Z.min (NRECS * LLSIZE) (len - j * LLSIZE) / LLSIZE = Z.min NRECS (len / LLSIZE - j).
Proof.
  intros Hj Hlen.
  assert (E1 : (len - j * LLSIZE) / LLSIZE = len / LLSIZE - j).
  { replace (len - j * LLSIZE) with (len + (- j) * LLSIZE) by lia.
    rewrite Z.div_add by lia. lia. }
  assert (E2 : NRECS * LLSIZE / LLSIZE = NRECS) by (apply Z.div_mul; lia).
  destruct (Z.le_ge_cases (NRECS * LLSIZE) (len - j * LLSIZE)) as [H|H].
  - rewrite Z.min_l by assumption. rewrite E2.
    rewrite Z.min_l; [reflexivity|].
    rewrite <- E1, <- E2 at 1. apply Z.div_le_mono; lia.
  - rewrite Z.min_r by assumption. rewrite E1.
    rewrite Z.min_r; [reflexivity|].
    rewrite <- E1, <- E2. apply Z.div_le_mono; lia.
Qed.

Lemma delivered_length_exact c f pos :
  0 <= c -> 0 <= pos ->
  Z.of_nat (length (delivered c (mkOfd f pos))) =
    Z.min c (Z.max 0 (Z.of_nat (length (f_data f)) - pos)).
Proof.
  intros Hc Hp. unfold delivered. cbn [of_pos of_file].
  rewrite length_firstn, length_skipn. lia.
Qed.

Lemma load_record_llbuf g g' p :
  llbuf g = llbuf g' -> load_record LLSIZE g p = load_record LLSIZE g' p.
Proof. intros E. unfold load_record. now rewrite E. Qed.

(** A slot of a buffer filled by a read at record [base] of [f]. *)
Lemma loaded_slot g f base c buf i :
  0 <= base -> 0 <= i ->
  llbuf g = overwrite (delivered c (mkOfd f (base * LLSIZE))) buf ->
  (i + 1) * LLSIZE <= Z.of_nat (length (delivered c (mkOfd f (base * LLSIZE)))) ->
  load_record LLSIZE g (LLP (i * LLSIZE)) = file_record LLSIZE f (base + i).
Proof.
  intros Hb Hi Hbuf Hfit.
  set (o1 := mkOfd f (base * LLSIZE)) in *.
  assert (Hdata : (base + i + 1) * LLSIZE <= Z.of_nat (length (f_data f))).
  { unfold delivered in Hfit. rewrite length_firstn, length_skipn in Hfit.
    cbn [of_pos of_file o1] in Hfit. lia. }
  assert (Hov : Z.of_nat (length (delivered c o1)) <= Z.of_nat (length (llbuf g))).
  { rewrite Hbuf. unfold overwrite. rewrite length_app. lia. }
  unfold load_record, file_record.
  replace ((0 <=? i * LLSIZE) && (i * LLSIZE + LLSIZE <=? Z.of_nat (length (llbuf g))))
    with true
    by (symmetry; apply andb_true_iff; split; apply Z.leb_le; nia).
  replace ((0 <=? base + i)
           && ((base + i + 1) * LLSIZE <=? Z.of_nat (length (f_data f))))
    with true
    by (symmetry; apply andb_true_iff; split; apply Z.leb_le; lia).
  f_equal. rewrite Hbuf.
  rewrite (delivered_slot c o1 i LLSIZE buf);
    [|cbn [of_pos o1]; nia|exact LLSIZE_pos|lia|exact Hfit].
  cbn [of_pos of_file o1]. f_equal. f_equal. lia.
Qed.

(** [ll_reload] at the start of record [j] of a readable file. *)
Lemma reload_page w f j :
  ll_fd (lib w) <> -1 ->
  open_on w (mkOfd f (j * LLSIZE)) -> f_readable f = true ->
  0 <= j <= whole_records LLSIZE f ->
  let w' := snd (ll_reload LLSIZE w) in
  fst (ll_reload LLSIZE w) = Z.min NRECS (whole_records LLSIZE f - j) /\
  ll_fd (lib w') = ll_fd (lib w) /\ buf_start (lib w') = buf_start (lib w) /\
  cur_rec (lib w') = 0 /\
  num_recs (lib w') = Z.min NRECS (whole_records LLSIZE f - j) /\
  open_on w' (mkOfd f (Z.min ((j + NRECS) * LLSIZE) (Z.of_nat (length (f_data f))))) /\
  k_trace (os w') =
    SysRead (ll_fd (lib w)) (NRECS * LLSIZE)
            (Z.min (NRECS * LLSIZE) (Z.of_nat (length (f_data f)) - j * LLSIZE))
      :: k_trace (os w) /\
  forall i, 0 <= i < num_recs (lib w') ->
    load_record LLSIZE (lib w') (LLP (i * LLSIZE)) = file_record LLSIZE f (j + i).
Proof.
  intros Hfd Ho Hr Hj w'. subst w'.
  pose proof (whole_records_spec f) as [HR0 [HRlo HRhi]].
  rewrite (ll_reload_readable LLSIZE LLSIZE_pos buffer_fits_int w _ Ho Hr).
  cbn [fst snd lib os ll_fd buf_start cur_rec num_recs k_trace of_file of_pos].
  set (len := Z.of_nat (length (f_data f))) in *.
  assert (Hn : Z.of_nat (length (delivered (NRECS * LLSIZE) (mkOfd f (j * LLSIZE))))
               = Z.min (NRECS * LLSIZE) (len - j * LLSIZE)).
  { rewrite delivered_length_exact by (unfold NRECS; nia). fold len. nia. }
  rewrite Hn.
  assert (Hq : Z.min (NRECS * LLSIZE) (len - j * LLSIZE) / LLSIZE
               = Z.min NRECS (whole_records LLSIZE f - j)).
  { unfold whole_records. fold len. apply page_records; nia. }
  rewrite Hq.
  repeat (split; [reflexivity|]).
  split.
  { unfold open_on. cbn [lib os ll_fd k_fdt]. rewrite fdt_get_set_same.
    f_equal. f_equal. unfold NRECS in *. lia. }
  split; [reflexivity|].
  intros i Hi.
  eapply loaded_slot; [lia|lia|reflexivity|].
  rewrite Hn. rewrite <- Hq in Hi.
  pose proof (Z.mul_div_le (Z.min (NRECS * LLSIZE) (len - j * LLSIZE)) LLSIZE LLSIZE_pos).
  nia.
Qed.

Lemma size_mul_slot c :
  0 <= c <= NRECS -> size_mul c LLSIZE = c * LLSIZE.
Proof.
  intros Hc. unfold size_mul, NRECS in *.
  rewrite (to_size_t_id c) by lia. rewrite (to_size_t_id LLSIZE) by lia.
  apply to_size_t_id. nia.
Qed.

(** One [ll_read] of a scan that has not reached the last record. *)
Lemma scan_step w f base j :
  scan_at LLSIZE f base j w -> f_readable f = true ->
  0 <= j < whole_records LLSIZE f ->
  let p := fst (ll_read LLSIZE w) in
  let w' := snd (ll_read LLSIZE w) in
  load_record LLSIZE (lib w') p = file_record LLSIZE f j /\
  ((scan_at LLSIZE f base (j + 1) w' /\ k_trace (os w') = k_trace (os w)) \/
   (j = base + NRECS /\ scan_at LLSIZE f j (j + 1) w' /\
    k_trace (os w') =
      SysRead (ll_fd (lib w)) (NRECS * LLSIZE)
              (Z.min (NRECS * LLSIZE) (Z.of_nat (length (f_data f)) - j * LLSIZE))
        :: k_trace (os w))) /\
  ll_fd (lib w') = ll_fd (lib w).
Proof.
  intros [Hfd [Hbs [Hb [Ho [Hn [Hc [Hcn Hslots]]]]]]] Hr Hj p w'. subst p w'.
  pose proof (whole_records_spec f) as [HR0 [HRlo HRhi]].
  rewrite (ll_read_unfold LLSIZE).
  apply Z.eqb_neq in Hfd as Hfdb. rewrite Hfdb.
  assert (Hnum : 0 < num_recs (lib w) <= NRECS) by (unfold NRECS in *; lia).
  replace (num_recs (lib w) =? 0) with false by (symmetry; apply Z.eqb_neq; lia).
  rewrite andb_false_r. cbv zeta.
  destruct (cur_rec (lib w) =? num_recs (lib w)) eqn:Ec.
  - apply Z.eqb_eq in Ec.
    assert (Hfull : num_recs (lib w) = NRECS /\ j = base + NRECS)
      by (unfold NRECS in *; lia).
    destruct Hfull as [Hfull Hjb].
    assert (Ho' : open_on w (mkOfd f (j * LLSIZE))).
    { unfold open_on in *. rewrite Ho. f_equal. f_equal. unfold NRECS in *. nia. }
    destruct (reload_page w f j Hfd Ho' Hr ltac:(lia))
      as [Hg [Hfd' [Hbs' [Hc' [Hn' [Hopen' [Ht' Hslots']]]]]]].
    rewrite Hg.
    replace (Z.min NRECS (whole_records LLSIZE f - j) =? 0) with false
      by (symmetry; apply Z.eqb_neq; unfold NRECS; lia).
    cbn [fst snd lib os]. rewrite Hc'.
    rewrite size_mul_slot by (unfold NRECS; lia).
    split.
    { pose proof (Hslots' 0 ltac:(rewrite Hn'; unfold NRECS; lia)) as H0.
      rewrite Z.add_0_r in H0. rewrite <- H0.
      apply load_record_llbuf. reflexivity. }
    split; [|exact Hfd'].
    right. split; [exact Hjb|]. split; [|exact Ht'].
    {
      unfold scan_at. cbn [lib os ll_fd buf_start num_recs cur_rec].
      unfold open_on in *. cbn [lib os ll_fd] in *.
      split; [congruence|]. split; [congruence|]. split; [lia|].
      split; [exact Hopen'|]. split; [exact Hn'|].
      change (int_add 0 1) with 1.
      split; [lia|].
      split; [rewrite Hn'; unfold NRECS; lia|].
      intros i Hi. rewrite <- (Hslots' i Hi). apply load_record_llbuf. reflexivity. }
  - apply Z.eqb_neq in Ec. cbn [fst snd lib os].
    rewrite size_mul_slot by lia.
    split.
    { pose proof (Hslots (j - base) ltac:(lia)) as H0.
      replace (base + (j - base)) with j in H0 by lia.
      rewrite Hc, <- H0. apply load_record_llbuf. reflexivity. }
    split; [|reflexivity].
    left. split; [|reflexivity].
    { unfold scan_at. cbn [lib os ll_fd buf_start num_recs cur_rec].
      unfold open_on in *. cbn [lib os ll_fd] in *.
      repeat (split; [assumption|]).
      split.
      { unfold int_add. rewrite to_int_id by (unfold in_int, NRECS in *; lia). lia. }
      split; [lia|].
      intros i Hi. rewrite <- (Hslots i Hi). apply load_record_llbuf. reflexivity. }
Qed.

(** The first [ll_read] after [ll_open] loads page 0 and goes on as any
    later one. *)
Lemma scan_first w f :
  freshly_opened f w -> f_readable f = true -> 0 < whole_records LLSIZE f ->
  ll_read LLSIZE w = ll_read LLSIZE (snd (ll_reload LLSIZE w)) /\
  scan_at LLSIZE f 0 0 (snd (ll_reload LLSIZE w)) /\
  ll_fd (lib (snd (ll_reload LLSIZE w))) = ll_fd (lib w) /\
  k_trace (os (snd (ll_reload LLSIZE w))) =
    SysRead (ll_fd (lib w)) (NRECS * LLSIZE)
            (Z.min (NRECS * LLSIZE) (Z.of_nat (length (f_data f)) - 0 * LLSIZE))
      :: k_trace (os w).
Proof.
  intros [Hfd [Ho [Hn [Hc Hbs]]]] Hr HR.
  assert (Ho' : open_on w (mkOfd f (0 * LLSIZE))) by exact Ho.
  destruct (reload_page w f 0 Hfd Ho' Hr ltac:(lia))
    as [Hg [Hfd' [Hbs' [Hc' [Hn' [Hopen' [Ht' Hslots']]]]]]].
  rewrite Z.sub_0_r in *.
  split; [|split; [|split]].
  - rewrite (ll_read_unfold LLSIZE w).
    rewrite (ll_read_unfold LLSIZE (snd (ll_reload LLSIZE w))).
    apply Z.eqb_neq in Hfd as Hfdb.
    rewrite Hfd', Hbs', Hn', Hbs, Hn, Hfdb. cbn [Z.eqb andb].
    replace (Z.min NRECS (whole_records LLSIZE f) =? 0) with false
      by (symmetry; apply Z.eqb_neq; unfold NRECS; lia).
    reflexivity.
  - unfold scan_at. rewrite Hfd', Hbs', Hc', Hn', Z.sub_0_r.
    split; [assumption|]. split; [assumption|]. split; [lia|].
    split; [exact Hopen'|]. split; [reflexivity|]. split; [reflexivity|].
    split; [unfold NRECS; lia|].
    intros i Hi. rewrite <- Hn' in Hi. exact (Hslots' i Hi).
  - exact Hfd'.
  - exact Ht'.
Qed.

(** A reload that finds less than one record left. *)
Lemma reload_short w f pos :
  open_on w (mkOfd f pos) -> f_readable f = true -> 0 <= pos ->
  Z.of_nat (length (f_data f)) - pos < LLSIZE ->
  let w' := snd (ll_reload LLSIZE w) in
  fst (ll_reload LLSIZE w) = 0 /\
  num_recs (lib w') = 0 /\ cur_rec (lib w') = 0 /\
  ll_fd (lib w') = ll_fd (lib w) /\
  exists pos', open_on w' (mkOfd f pos') /\ 0 <= pos' /\
               Z.of_nat (length (f_data f)) - pos' < LLSIZE.
Proof.
  intros Ho Hr Hp Hshort w'. subst w'.
  rewrite (ll_reload_readable LLSIZE LLSIZE_pos buffer_fits_int w _ Ho Hr).
  cbn [fst snd lib os ll_fd cur_rec num_recs of_file of_pos].
  pose proof (delivered_length_exact (NRECS * LLSIZE) f pos
                ltac:(unfold NRECS; lia) Hp) as Hn.
  set (n := Z.of_nat (length (delivered (NRECS * LLSIZE) (mkOfd f pos)))) in *.
  assert (Hsmall : 0 <= n < LLSIZE) by (unfold NRECS in *; lia).
  assert (Hq : n / LLSIZE = 0) by (apply Z.div_small; lia).
  rewrite Hq. repeat (split; [reflexivity|]).
  exists (pos + n). unfold open_on. cbn [lib os ll_fd k_fdt].
  rewrite fdt_get_set_same. split; [reflexivity|]. unfold NRECS in *. lia.
Qed.

(** With the cursor at the end of the buffer and less than one record
    left in the file, [ll_read] returns [LL_NULL]. *)
Lemma read_short_tail w f pos :
  ll_fd (lib w) <> -1 ->
  open_on w (mkOfd f pos) -> f_readable f = true -> 0 <= pos ->
  Z.of_nat (length (f_data f)) - pos < LLSIZE ->
  cur_rec (lib w) = num_recs (lib w) ->
  fst (ll_read LLSIZE w) = LL_NULL.
Proof.
  intros Hfd Ho Hr Hp Hshort Hc.
  rewrite (ll_read_unfold LLSIZE w).
  apply Z.eqb_neq in Hfd as Hfdb. rewrite Hfdb. cbv zeta.
  set (w1 := if (buf_start (lib w) =? 0) && (num_recs (lib w) =? 0)
             then snd (ll_reload LLSIZE w) else w).
  assert (H1 : cur_rec (lib w1) = num_recs (lib w1) /\
               exists p1, open_on w1 (mkOfd f p1) /\ 0 <= p1 /\
                          Z.of_nat (length (f_data f)) - p1 < LLSIZE).
  { subst w1. destruct ((buf_start (lib w) =? 0) && (num_recs (lib w) =? 0)).
    - destruct (reload_short w f pos Ho Hr Hp Hshort) as [_ [Hn [Hc' [_ Hex]]]].
      split; [congruence|exact Hex].
    - eauto. }
  destruct H1 as [Hc1 [p1 [Ho1 [Hp1 Hs1]]]].
  apply Z.eqb_eq in Hc1. rewrite Hc1.
  destruct (reload_short w1 f p1 Ho1 Hr Hp1 Hs1) as [Hg _].
  rewrite Hg. reflexivity.
Qed.

Lemma ll_open_freshly_opened w0 path f :
  lookup_file path (k_files (os w0)) = Some f ->
  freshly_opened f (snd (ll_open path w0)).
Proof.
  destruct w0 as [g [files fdt trace]]. cbn [os k_files]. intros Hf.
  rewrite (ll_open_found g files fdt trace path f Hf). cbn [snd].
  pose proof (lowest_free_fd_range fdt) as Hfd.
  unfold freshly_opened, open_on. cbn [lib os ll_fd num_recs cur_rec buf_start k_fdt].
  rewrite fdt_get_set_same. repeat split; lia.
Qed.

(** The state of a scan after [k] calls of [ll_read], [k] at most the
    number of whole records. *)
Lemma scan_invariant w f (k : nat) :
  freshly_opened f w -> f_readable f = true ->
  Z.of_nat k <= whole_records LLSIZE f ->
  (k = 0%nat) \/
  (exists m : nat,
      NRECS * Z.of_nat m < Z.of_nat k <= NRECS * Z.of_nat m + NRECS /\
      scan_at LLSIZE f (NRECS * Z.of_nat m) (Z.of_nat k) (after_reads LLSIZE k w) /\
      ll_fd (lib (after_reads LLSIZE k w)) = ll_fd (lib w) /\
      k_trace (os (after_reads LLSIZE k w)) =
        page_reads LLSIZE (ll_fd (lib w)) f (S m) ++ k_trace (os w)).
Proof.
  intros Hfresh Hr. induction k as [|k IH]; intros Hk; [now left|].
  right. unfold after_reads in *. rewrite Nat.iter_succ.
  destruct (IH ltac:(lia)) as [->|[m [Hm [Hscan [Hfd Ht]]]]].
  - change (Nat.iter 0 (fun x => snd (ll_read LLSIZE x)) w) with w.
    destruct (scan_first w f Hfresh Hr ltac:(lia)) as [E [Hs0 [Hfd0 Ht0]]].
    rewrite E.
    destruct (scan_step _ f 0 0 Hs0 Hr ltac:(lia)) as [_ [Hcase Hfd1]].
    exists 0%nat. cbn [Z.of_nat Z.mul] in *. rewrite Z.mul_0_r.
    destruct Hcase as [[Hs1 Ht1]|[Hj _]]; [|unfold NRECS in Hj; lia].
    split; [unfold NRECS; lia|]. split; [exact Hs1|].
    split; [congruence|].
    rewrite Ht1, Ht0. cbn [page_reads app Z.of_nat]. do 2 f_equal; try lia.
  - set (wk := Nat.iter k (fun x => snd (ll_read LLSIZE x)) w) in *.
    destruct (scan_step wk f _ _ Hscan Hr ltac:(lia)) as [_ [Hcase Hfd1]].
    replace (Z.of_nat (S k)) with (Z.of_nat k + 1) by lia.
    destruct Hcase as [[Hs1 Ht1]|[Hj [Hs1 Ht1]]].
    + exists m. pose proof Hs1 as [_ [_ [_ [_ [Hn [_ [Hcn _]]]]]]].
      split; [unfold NRECS in *; lia|].
      split; [exact Hs1|].
      split; [congruence|]. rewrite Ht1. exact Ht.
    + exists (S m).
      split; [unfold NRECS in *; lia|].
      split.
      { replace (NRECS * Z.of_nat (S m)) with (Z.of_nat k) by lia. exact Hs1. }
      split; [congruence|].
      rewrite Ht1, Ht, Hfd. cbn [page_reads app]. f_equal. f_equal. f_equal.
      unfold NRECS in *. lia.
Qed.

(** X1.  A sequential scan yields the records of the file in order.  After
    [ll_open] of a readable file that holds [R] whole records, the
    [k+1]-th [ll_read] returns the address of a copy of file record [k]
    for every [k < R], and the [R+1]-th returns [LL_NULL]: trailing
    bytes that do not fill a record are never yielded. *)
Theorem ll_read_sequential_scan w0 path f (k : nat) :
  lookup_file path (k_files (os w0)) = Some f -> f_readable f = true ->
  let wk := after_reads LLSIZE k (snd (ll_open path w0)) in
  (Z.of_nat k < whole_records LLSIZE f ->
   load_record LLSIZE (lib (snd (ll_read LLSIZE wk))) (fst (ll_read LLSIZE wk))
     = file_record LLSIZE f (Z.of_nat k) /\
   file_record LLSIZE f (Z.of_nat k) <> None) /\
  (Z.of_nat k = whole_records LLSIZE f -> fst (ll_read LLSIZE wk) = LL_NULL).
Proof.
  intros Hf Hr wk. subst wk.
  pose proof (ll_open_freshly_opened w0 path f Hf) as Hfresh.
  set (w := snd (ll_open path w0)) in *.
  pose proof (whole_records_spec f) as [HR0 [HRlo HRhi]].
  split.
  - intros Hk. split; [|apply file_record_exists; lia].
    destruct (scan_invariant w f k Hfresh Hr ltac:(lia)) as [->|[m [Hm [Hscan _]]]].
    + unfold after_reads. change (Nat.iter 0 (fun x => snd (ll_read LLSIZE x)) w) with w. cbn [Z.of_nat].
      destruct (scan_first w f Hfresh Hr ltac:(lia)) as [E [Hs0 _]].
      rewrite E. exact (proj1 (scan_step _ f 0 0 Hs0 Hr ltac:(lia))).
    + exact (proj1 (scan_step _ f _ _ Hscan Hr ltac:(lia))).
  - intros Hk.
    destruct (scan_invariant w f k Hfresh Hr ltac:(lia)) as [->|[m [Hm [Hscan _]]]].
    + unfold after_reads. change (Nat.iter 0 (fun x => snd (ll_read LLSIZE x)) w) with w. cbn [Z.of_nat] in Hk.
      destruct Hfresh as [Hfd [Ho [Hn [Hc Hbs]]]].
      apply (read_short_tail w f 0 Hfd Ho Hr); [lia|lia|congruence].
    + destruct Hscan as [Hfd [Hbs [Hb [Ho [Hn [Hc [Hcn _]]]]]]].
      eapply (read_short_tail _ f _ Hfd Ho Hr); unfold NRECS in *; try lia.
      destruct (Z.min_spec ((512 * Z.of_nat m + 512) * LLSIZE)
                           (Z.of_nat (length (f_data f)))) as [[Hlt E]|[Hge E]];
        rewrite E; [|lia].
      assert (512 * Z.of_nat m + 512 <= whole_records LLSIZE f).
      { unfold whole_records. apply Z.div_le_lower_bound; lia. }
      nia.
Qed.

(** X2.  A sequential scan reads every page once and never seeks: after
    [ll_open] of a readable file, the first [k] calls of [ll_read]
    ([1 <= k <=] the number of whole records) issue exactly
    [floor((k-1)/NRECS) + 1] system calls, all of them [read]s of
    [NRECS * LLSIZE] bytes through [ll_fd]. *)
Theorem ll_read_scan_reads_each_page_once w0 path f (k : nat) :
  lookup_file path (k_files (os w0)) = Some f -> f_readable f = true ->
  1 <= Z.of_nat k <= whole_records LLSIZE f ->
  let w := snd (ll_open path w0) in
  k_trace (os (after_reads LLSIZE k w)) =
    page_reads LLSIZE (ll_fd (lib w)) f (S (Z.to_nat ((Z.of_nat k - 1) / NRECS)))
      ++ k_trace (os w).
Proof.
  intros Hf Hr Hk w.
  pose proof (ll_open_freshly_opened w0 path f Hf) as Hfresh. fold w in Hfresh.
  destruct (scan_invariant w f k Hfresh Hr ltac:(lia)) as [->|[m [Hm [_ [_ Ht]]]]];
    [lia|].
  rewrite Ht. do 2 f_equal.
  assert (E : (Z.of_nat k - 1) / NRECS = Z.of_nat m).
  { symmetry. apply (Z.div_unique _ _ _ (Z.of_nat k - 1 - NRECS * Z.of_nat m));
      unfold NRECS in *; lia. }
  rewrite E. lia.
Qed.

(** *** Lookups *)

Lemma ll_read_no_file w :
  ll_fd (lib w) = -1 -> ll_read LLSIZE w = (LL_NULL, w).
Proof. intros H. rewrite ll_read_unfold, H. reflexivity. Qed.

(** [ll_seek] to a record the file holds, through the "outside buffer"
    branch. *)
Lemma ll_seek_miss_state w rec f pos :
  0 <= rec < 2 ^ 31 ->
  ll_fd (lib w) <> -1 -> rec <> cur_rec (lib w) ->
  outside_buffer (lib w) rec = true ->
  open_on w (mkOfd f pos) -> f_seekable f = true -> f_readable f = true ->
  rec < whole_records LLSIZE f ->
  let page := rec / NRECS * NRECS in
  let w' := snd (ll_seek LLSIZE rec w) in
  fst (ll_seek LLSIZE rec w) = 0 /\
  ll_fd (lib w') = ll_fd (lib w) /\
  buf_start (lib w') = page /\ cur_rec (lib w') = rec - page /\
  num_recs (lib w') = Z.min NRECS (whole_records LLSIZE f - page) /\
  k_trace (os w') =
    SysRead (ll_fd (lib w)) (NRECS * LLSIZE)
            (Z.min (NRECS * LLSIZE) (Z.of_nat (length (f_data f)) - page * LLSIZE))
      :: SysLseek (ll_fd (lib w)) (page * LLSIZE) (page * LLSIZE) :: k_trace (os w) /\
  forall i, 0 <= i < num_recs (lib w') ->
    load_record LLSIZE (lib w') (LLP (i * LLSIZE)) = file_record LLSIZE f (page + i).
Proof.
  intros Hr Hfd Hc Hout Hopen Hseek Hread HR page w'. subst w'.
  pose proof (ll_seek_outside LLSIZE LLSIZE_pos buffer_fits_int w rec Hr Hfd Hc Hout) as Hs.
  cbv zeta in Hs. fold page in Hs.
  destruct (seek_offset_exact LLSIZE LLSIZE_pos buffer_fits_int rec Hr) as [_ [_ Hm]].
  fold page in Hm.
  assert (Hpage : 0 <= page).
  { subst page. unfold NRECS. assert (0 <= rec / 512) by (apply Z.div_pos; lia). lia. }
  clearbody page.
  assert (El : sys_lseek (ll_fd (lib w)) (page * LLSIZE) (os w) =
            (page * LLSIZE,
             mkKernel (k_files (os w))
               (fdt_set (ll_fd (lib w)) (mkOfd f (page * LLSIZE)) (k_fdt (os w)))
               (SysLseek (ll_fd (lib w)) (page * LLSIZE) (page * LLSIZE)
                  :: k_trace (os w)))).
  { unfold sys_lseek. unfold open_on in Hopen. rewrite Hopen. cbn [of_file]. rewrite Hseek.
    replace (0 <=? page * LLSIZE) with true; [reflexivity|].
    symmetry. apply Z.leb_le. nia. }
  rewrite El in Hs.
  assert (Hne : (page * LLSIZE =? -1) = false) by (apply Z.eqb_neq; nia).
  rewrite Hne in Hs.
  set (w1 := mkWorld _ _) in Hs.
  assert (Ho1 : open_on w1 (mkOfd f (page * LLSIZE))).
  { unfold open_on. subst w1. cbn [lib os ll_fd k_fdt]. apply fdt_get_set_same. }
  assert (Hfd1 : ll_fd (lib w1) <> -1) by exact Hfd.
  destruct (reload_page w1 f page Hfd1 Ho1 Hread ltac:(lia))
    as [Hg [Hfd' [Hbs' [Hc' [Hn' [_ [Ht' Hslots']]]]]]].
  destruct (ll_reload LLSIZE w1) as [got w2]. cbn [fst snd] in *.
  subst got.
  replace (Z.min NRECS (whole_records LLSIZE f - page) <=? 0) with false in Hs
    by (symmetry; apply Z.leb_gt; unfold NRECS in *; lia).
  rewrite Hs. cbn [fst snd lib os ll_fd buf_start cur_rec num_recs].
  subst w1. cbn [lib os ll_fd buf_start k_trace] in *.
  split; [reflexivity|]. split; [exact Hfd'|]. split; [exact Hbs'|].
  split; [reflexivity|]. split; [exact Hn'|]. split; [exact Ht'|].
  intros i Hi. rewrite <- (Hslots' i Hi). apply load_record_llbuf. reflexivity.
Qed.

(** [ll_read] with the cursor on a loaded slot: it yields that slot and
    makes no system call. *)
Lemma read_in_window ws f base :
  ll_fd (lib ws) <> -1 ->
  0 <= cur_rec (lib ws) < num_recs (lib ws) -> num_recs (lib ws) <= NRECS ->
  (forall i, 0 <= i < num_recs (lib ws) ->
     load_record LLSIZE (lib ws) (LLP (i * LLSIZE)) = file_record LLSIZE f (base + i)) ->
  load_record LLSIZE (lib (snd (ll_read LLSIZE ws))) (fst (ll_read LLSIZE ws))
    = file_record LLSIZE f (base + cur_rec (lib ws)) /\
  os (snd (ll_read LLSIZE ws)) = os ws.
Proof.
  intros Hfd Hc Hn Hslots.
  rewrite (ll_read_unfold LLSIZE ws).
  replace (ll_fd (lib ws) =? -1) with false by (symmetry; apply Z.eqb_neq; congruence).
  replace (num_recs (lib ws) =? 0) with false by (symmetry; apply Z.eqb_neq; lia).
  rewrite andb_false_r. cbv zeta.
  replace (cur_rec (lib ws) =? num_recs (lib ws)) with false
    by (symmetry; apply Z.eqb_neq; lia).
  cbn [fst snd lib os]. rewrite size_mul_slot by lia.
  split; [|reflexivity].
  rewrite <- (Hslots (cur_rec (lib ws))) by lia.
  apply load_record_llbuf. reflexivity.
Qed.

(** X3.  A lookup that misses the buffer: when [rec] is a record of a
    seekable, readable file and [ll_seek(rec)] takes the "outside
    buffer" branch, it returns 0 and the following [ll_read] returns the
    address of a copy of file record [rec]; together the two calls issue
    one [lseek] to the start of the page and one [read]. *)
Theorem ll_seek_miss_then_read w rec f pos :
  0 <= rec < 2 ^ 31 ->
  ll_fd (lib w) <> -1 -> rec <> cur_rec (lib w) ->
  outside_buffer (lib w) rec = true ->
  open_on w (mkOfd f pos) -> f_seekable f = true -> f_readable f = true ->
  rec < whole_records LLSIZE f ->
  let page := rec / NRECS * NRECS in
  let ws := snd (ll_seek LLSIZE rec w) in
  let wr := snd (ll_read LLSIZE ws) in
  fst (ll_seek LLSIZE rec w) = 0 /\
  load_record LLSIZE (lib wr) (fst (ll_read LLSIZE ws)) = file_record LLSIZE f rec /\
  file_record LLSIZE f rec <> None /\
  k_trace (os wr) =
    SysRead (ll_fd (lib w)) (NRECS * LLSIZE)
            (Z.min (NRECS * LLSIZE) (Z.of_nat (length (f_data f)) - page * LLSIZE))
      :: SysLseek (ll_fd (lib w)) (page * LLSIZE) (page * LLSIZE) :: k_trace (os w).
Proof.
  intros Hr Hfd Hc Hout Hopen Hseek Hread HR page ws wr. subst wr ws.
  destruct (ll_seek_miss_state w rec f pos Hr Hfd Hc Hout Hopen Hseek Hread HR)
    as [Hres [Hfd' [Hbs [Hcur [Hnum [Ht Hslots]]]]]].
  fold page in Hbs, Hcur, Hnum, Ht, Hslots.
  destruct (seek_offset_exact LLSIZE LLSIZE_pos buffer_fits_int rec Hr) as [_ [_ Hm]].
  fold page in Hm.
  set (ws := snd (ll_seek LLSIZE rec w)) in *.
  split; [exact Hres|].
  destruct (read_in_window ws f page) as [Hy Hos];
    [congruence|unfold NRECS in *; lia|unfold NRECS in *; lia|exact Hslots|].
  replace (page + cur_rec (lib ws)) with rec in Hy by lia.
  split; [exact Hy|]. split; [apply file_record_exists; lia|].
  rewrite Hos. exact Ht.
Qed.

(** X4.  The first lookup after [ll_open]: for every record [rec] of a
    seekable, readable file, [ll_open], [ll_seek(rec)], [ll_read]
    yield file record [rec]. *)
Theorem ll_open_seek_read w0 path f rec :
  lookup_file path (k_files (os w0)) = Some f ->
  f_seekable f = true -> f_readable f = true ->
  0 <= rec < 2 ^ 31 -> rec < whole_records LLSIZE f ->
  let wo := snd (ll_open path w0) in
  let ws := snd (ll_seek LLSIZE rec wo) in
  fst (ll_seek LLSIZE rec wo) = 0 /\
  load_record LLSIZE (lib (snd (ll_read LLSIZE ws))) (fst (ll_read LLSIZE ws))
    = file_record LLSIZE f rec /\
  file_record LLSIZE f rec <> None.
Proof.
  intros Hf Hseek Hread Hr HR wo ws. subst ws.
  pose proof (ll_open_freshly_opened w0 path f Hf) as Hfresh. fold wo in Hfresh.
  destruct (Z.eq_dec rec 0) as [->|Hne].
  - destruct Hfresh as [Hfd [Ho [Hn [Hc Hbs]]]].
    rewrite (ll_seek_fast LLSIZE wo 0 Hfd ltac:(congruence)). cbn [fst snd].
    split; [reflexivity|]. split; [|apply file_record_exists; lia].
    destruct (scan_first wo f (conj Hfd (conj Ho (conj Hn (conj Hc Hbs)))) Hread
                ltac:(lia)) as [E [Hs0 _]].
    rewrite E. exact (proj1 (scan_step _ f 0 0 Hs0 Hread ltac:(lia))).
  - destruct Hfresh as [Hfd [Ho [Hn [Hc Hbs]]]].
    assert (Hout : outside_buffer (lib wo) rec = true).
    { unfold outside_buffer. rewrite Hbs, Hn.
      change (int_sub (int_add 0 0) 1) with (-1).
      apply orb_true_iff. right. apply Z.gtb_lt. lia. }
    destruct (ll_seek_miss_state wo rec f 0 Hr Hfd ltac:(congruence) Hout Ho
                Hseek Hread HR) as [Hres [Hfd' [Hbs' [Hcur [Hnum [_ Hslots]]]]]].
    destruct (seek_offset_exact LLSIZE LLSIZE_pos buffer_fits_int rec Hr)
      as [_ [_ Hm]].
    split; [exact Hres|]. split; [|apply file_record_exists; lia].
    set (ws := snd (ll_seek LLSIZE rec wo)) in *.
    destruct (read_in_window ws f (rec / NRECS * NRECS)) as [Hy _];
      [congruence|unfold NRECS in *; lia|unfold NRECS in *; lia|exact Hslots|].
    rewrite Hy. f_equal. lia.
Qed.

(** X5.  A lookup that hits the buffer.  Let the buffer hold records
    [buf_start .. buf_start + num_recs - 1] of [f] and [rec] be one of
    them, different from [cur_rec].  Then [ll_seek(rec)] returns 0, the
    following [ll_read] returns the address of the copy of file record
    [rec], and neither makes a system call. *)
Theorem ll_seek_hit_then_read w rec f :
  ll_fd (lib w) <> -1 ->
  0 <= buf_start (lib w) <= 2 ^ 31 - 1 - NRECS ->
  0 < num_recs (lib w) <= NRECS ->
  (forall i, 0 <= i < num_recs (lib w) ->
     load_record LLSIZE (lib w) (LLP (i * LLSIZE))
       = file_record LLSIZE f (buf_start (lib w) + i)) ->
  buf_start (lib w) <= rec < buf_start (lib w) + num_recs (lib w) ->
  rec <> cur_rec (lib w) ->
  let ws := snd (ll_seek LLSIZE rec w) in
  let wr := snd (ll_read LLSIZE ws) in
  fst (ll_seek LLSIZE rec w) = 0 /\
  load_record LLSIZE (lib wr) (fst (ll_read LLSIZE ws)) = file_record LLSIZE f rec /\
  os wr = os w.
Proof.
  intros Hfd Hbs Hn Hslots Hrec Hc ws wr. subst wr ws.
  assert (Hout : outside_buffer (lib w) rec = false).
  { unfold outside_buffer, int_sub, int_add, NRECS in *.
    rewrite (to_int_id (buf_start (lib w) + num_recs (lib w))) by (unfold in_int; lia).
    rewrite to_int_id by (unfold in_int; lia).
    apply orb_false_iff. split; [apply Z.ltb_ge; lia|].
    rewrite Z.gtb_ltb. apply Z.ltb_ge. lia. }
  rewrite (ll_seek_inside LLSIZE w rec Hfd Hc Hout). cbn [fst snd].
  split; [reflexivity|].
  assert (Hsub : int_sub rec (buf_start (lib w)) = rec - buf_start (lib w)).
  { unfold int_sub. apply to_int_id. unfold in_int, NRECS in *. lia. }
  rewrite Hsub.
  set (ws := mkWorld _ _).
  destruct (read_in_window ws f (buf_start (lib w))) as [Hy Hos];
    subst ws; cbn [lib os ll_fd cur_rec num_recs];
    [exact Hfd|lia|lia| |].
  - intros i Hi. rewrite <- (Hslots i Hi). apply load_record_llbuf. reflexivity.
  - cbn [lib os cur_rec] in Hy, Hos. split; [|exact Hos].
    rewrite Hy. f_equal. lia.
Qed.

(** X7.  After a failed [ll_open] the store is unusable but harmless:
    [ll_open] returns -1, and then [ll_seek] returns -1, [ll_read]
    returns [LL_NULL] and [ll_close] returns 0, none of them making a
    system call or changing a static variable. *)
Theorem ll_open_failure_disables_store w0 path :
  lookup_file path (k_files (os w0)) = None ->
  let w := snd (ll_open path w0) in
  fst (ll_open path w0) = -1 /\
  k_trace (os w) = SysOpen path (-1) :: k_trace (os w0) /\
  forall rec,
    ll_seek LLSIZE rec w = (-1, w) /\
    ll_read LLSIZE w = (LL_NULL, w) /\
    ll_close w = (0, w).
Proof.
  destruct w0 as [g [files fdt trace]]. cbn [os k_files]. intros Hf. cbv zeta.
  rewrite (ll_open_missing g files fdt trace path Hf). cbn [fst snd os k_trace].
  split; [reflexivity|]. split; [reflexivity|]. intros rec.
  split; [|split].
  - apply ll_seek_no_file. reflexivity.
  - apply ll_read_no_file. reflexivity.
  - apply ll_close_unopened. reflexivity.
Qed.

(** *** The cursor stays inside the buffer while only [ll_read] runs *)

Lemma ll_read_keeps_open w o :
  open_on w o -> f_readable (of_file o) = true -> 0 <= of_pos o ->
  exists o', open_on (snd (ll_read LLSIZE w)) o' /\
             f_readable (of_file o') = true /\ 0 <= of_pos o'.
Proof.
  intros Ho Hr H0. rewrite ll_read_unfold.
  destruct (ll_fd (lib w) =? -1); [cbn [snd]; eauto|]. cbv zeta.
  set (w1 := if (buf_start (lib w) =? 0) && (num_recs (lib w) =? 0)
             then snd (ll_reload LLSIZE w) else w).
  assert (H1 : exists o1, open_on w1 o1 /\ f_readable (of_file o1) = true /\
                          0 <= of_pos o1).
  { subst w1. destruct ((buf_start (lib w) =? 0) && (num_recs (lib w) =? 0)).
    - exact (proj2 (ll_reload_keeps_open LLSIZE LLSIZE_pos buffer_fits_int w o Ho Hr H0)).
    - eauto. }
  destruct H1 as [o1 [Ho1 [Hr1 H01]]].
  destruct (cur_rec (lib w1) =? num_recs (lib w1)).
  - destruct (ll_reload_keeps_open LLSIZE LLSIZE_pos buffer_fits_int w1 o1 Ho1 Hr1 H01)
      as [Hfd [o2 Ho2]].
    destruct (fst (ll_reload LLSIZE w1) =? 0); cbn [snd]; [eauto|].
    exists o2. unfold open_on in *. cbn [lib os ll_fd]. exact Ho2.
  - cbn [snd]. exists o1. unfold open_on in *. cbn [lib os ll_fd]. auto.
Qed.

Lemma ll_read_pointer_bound w o off :
  open_on w o -> f_readable (of_file o) = true -> 0 <= of_pos o ->
  window_inv (lib w) ->
  fst (ll_read LLSIZE w) = LLP off ->
  0 <= off /\ off + LLSIZE <= NRECS * LLSIZE /\ off mod LLSIZE = 0.
Proof.
  intros Ho Hr H0 Hinv. rewrite ll_read_unfold.
  destruct (ll_fd (lib w) =? -1); [discriminate|]. cbv zeta.
  set (w1 := if (buf_start (lib w) =? 0) && (num_recs (lib w) =? 0)
             then snd (ll_reload LLSIZE w) else w).
  assert (H1 : window_inv (lib w1) /\
               exists o1, open_on w1 o1 /\ f_readable (of_file o1) = true).
  { subst w1. destruct ((buf_start (lib w) =? 0) && (num_recs (lib w) =? 0)).
    - destruct (ll_reload_result LLSIZE LLSIZE_pos buffer_fits_int w o Ho Hr)
        as [_ [Hc [Hn _]]].
      destruct (ll_reload_keeps_open LLSIZE LLSIZE_pos buffer_fits_int w o Ho Hr H0)
        as [_ [o1 [Ho1 [Hr1 _]]]].
      split; [unfold window_inv; lia|eauto].
    - eauto. }
  destruct H1 as [Hinv1 [o1 [Ho1 Hr1]]]. unfold window_inv in Hinv1.
  assert (Hslot : forall c, 0 <= c < NRECS ->
            0 <= c * LLSIZE /\ c * LLSIZE + LLSIZE <= NRECS * LLSIZE /\
            (c * LLSIZE) mod LLSIZE = 0).
  { intros c Hc. rewrite Z.mod_mul by lia. unfold NRECS in *. nia. }
  destruct (cur_rec (lib w1) =? num_recs (lib w1)) eqn:Ec.
  - destruct (ll_reload_result LLSIZE LLSIZE_pos buffer_fits_int w1 o1 Ho1 Hr1)
      as [_ [Hc _]].
    destruct (fst (ll_reload LLSIZE w1) =? 0); cbn [fst snd]; [discriminate|].
    rewrite Hc. rewrite size_mul_slot by (unfold NRECS; lia).
    intros E. injection E as <-. exact (Hslot 0 ltac:(unfold NRECS; lia)).
  - apply Z.eqb_neq in Ec. cbn [fst snd].
    rewrite size_mul_slot by lia.
    intros E. injection E as <-. apply Hslot. lia.
Qed.

(** X6.  As long as only [ll_read] is called on an open, readable file, the
    window invariant [0 <= cur_rec <= num_recs <= NRECS] is kept and
    every address returned is that of a whole slot of [llbuf]. *)
Theorem ll_read_stays_in_buffer w o (k : nat) :
  open_on w o -> f_readable (of_file o) = true -> 0 <= of_pos o ->
  window_inv (lib w) ->
  let wk := after_reads LLSIZE k w in
  window_inv (lib wk) /\
  forall off, fst (ll_read LLSIZE wk) = LLP off ->
    0 <= off /\ off + LLSIZE <= NRECS * LLSIZE /\ off mod LLSIZE = 0.
Proof.
  intros Ho Hr H0 Hinv wk. subst wk.
  assert (Hk : window_inv (lib (after_reads LLSIZE k w)) /\
               exists ok, open_on (after_reads LLSIZE k w) ok /\
                          f_readable (of_file ok) = true /\ 0 <= of_pos ok).
  { unfold after_reads. induction k as [|k IH]; [cbn [Nat.iter]; eauto|].
    rewrite Nat.iter_succ. destruct IH as [Hi [ok [Hok [Hrk H0k]]]].
    split.
    - exact (ll_read_window_inv LLSIZE LLSIZE_pos buffer_fits_int _ ok Hok Hrk H0k Hi).
    - exact (ll_read_keeps_open _ ok Hok Hrk H0k). }
  destruct Hk as [Hi [ok [Hok [Hrk H0k]]]].
  split; [exact Hi|]. intros off.
  exact (ll_read_pointer_bound _ ok off Hok Hrk H0k Hi).
Qed.

End ScanProperties.


(** ** alastlog.c: arguments *)

Lemma byte_eqb_refl c : Byte.eqb c c = true.
Proof. now apply byte_dec_lb. Qed.

Lemma bytes_eqb_refl a : bytes_eqb a a = true.
Proof. induction a as [|c a IH]; simpl; [reflexivity|]. now rewrite byte_eqb_refl. Qed.

Lemma bytes_eqb_eq a b : bytes_eqb a b = true -> a = b.
Proof.
  revert b. induction a as [|x a IH]; intros [|y b] H; simpl in H;
    try discriminate; [reflexivity|].
  apply andb_true_iff in H. destruct H as [H1 H2].
  apply byte_dec_bl in H1. f_equal; auto.
Qed.

Lemma bytes_eqb_length a b :
  length a <> length b -> bytes_eqb a b = false.
Proof.
  intros H. destruct (bytes_eqb a b) eqn:E; [|reflexivity].
  apply bytes_eqb_eq in E. congruence.
Qed.

Lemma digit_not_space c : is_digit c = true -> isspace c = false.
Proof. destruct c; intros H; try reflexivity; discriminate H. Qed.

Lemma digit_not_sign c :
  is_digit c = true -> Byte.eqb c "-"%byte = false /\ Byte.eqb c "+"%byte = false.
Proof. destruct c; intros H; try (split; reflexivity); discriminate H. Qed.

Lemma digit_val_range c d : digit_val c = Some d -> 0 <= d <= 9.
Proof.
  unfold digit_val.
  destruct ((48 <=? Z.of_N (Byte.to_N c)) && (Z.of_N (Byte.to_N c) <=? 57)) eqn:E;
    [|discriminate].
  apply andb_true_iff in E. destruct E as [E1 E2].
  apply Z.leb_le in E1. apply Z.leb_le in E2. intros H. injection H as <-. lia.
Qed.

Lemma skip_spaces_all ws :
  forallb isspace ws = true -> skip_spaces ws = [].
Proof.
  induction ws as [|c ws IH]; simpl; [reflexivity|].
  intros H. apply andb_true_iff in H. destruct H as [H1 H2]. rewrite H1. auto.
Qed.

Lemma skip_spaces_app ws s :
  forallb isspace ws = true ->
  match s with [] => True | c :: _ => isspace c = false end ->
  skip_spaces (ws ++ s) = s.
Proof.
  intros Hws Hs. induction ws as [|c ws IH]; simpl in *.
  - destruct s as [|c s]; [reflexivity|]. simpl. now rewrite Hs.
  - apply andb_true_iff in Hws. destruct Hws as [H1 H2]. rewrite H1. auto.
Qed.

Lemma decimal_value_nonneg ds : 0 <= decimal_value ds.
Proof.
  induction ds as [|c ds IH]; simpl; [lia|].
  destruct (digit_val c) as [d|] eqn:E; [|lia].
  apply digit_val_range in E.
  assert (0 <= 10 ^ Z.of_nat (length ds)) by (apply Z.pow_nonneg; lia). nia.
Qed.

(** [digits_from] reads a digit string as the number it denotes. *)
Lemma digits_from_app acc ds rest :
  forallb is_digit ds = true -> no_digit_ahead rest ->
  digits_from acc (ds ++ rest)
    = (acc * 10 ^ Z.of_nat (length ds) + decimal_value ds, rest).
Proof.
  intros Hds Hrest. revert acc.
  induction ds as [|c ds IH]; intros acc.
  - cbn [app length Z.of_nat decimal_value]. rewrite Z.pow_0_r, Z.mul_1_r, Z.add_0_r.
    destruct rest as [|c r]; [reflexivity|].
    unfold no_digit_ahead, is_digit in Hrest. cbn [digits_from].
    destruct (digit_val c); [discriminate|reflexivity].
  - cbn [forallb] in Hds. apply andb_true_iff in Hds. destruct Hds as [Hc Hds].
    cbn [app digits_from decimal_value length]. unfold is_digit in Hc.
    destruct (digit_val c) as [d|]; [|discriminate].
    rewrite (IH Hds). f_equal.
    rewrite Nat2Z.inj_succ, Z.pow_succ_r by lia. ring.
Qed.

Lemma sign_head_not_space sign s :
  is_sign sign -> sign <> [] ->
  match sign ++ s with [] => True | c :: _ => isspace c = false end.
Proof.
  intros [->|[->| ->]] H; [contradiction|reflexivity|reflexivity].
Qed.

(** [strtol] on blanks, an optional sign, digits, and a rest that does
    not go on with a digit. *)
Lemma strtol_number ws sign ds rest :
  forallb isspace ws = true -> is_sign sign ->
  forallb is_digit ds = true -> ds <> [] -> no_digit_ahead rest ->
  strtol (ws ++ sign ++ ds ++ rest)
    = (clamp_long (signed sign (decimal_value ds)), rest).
Proof.
  intros Hws Hsign Hds Hne Hrest.
  destruct ds as [|c ds]; [contradiction|].
  pose proof Hds as Hds'. cbn [forallb] in Hds'.
  apply andb_true_iff in Hds'. destruct Hds' as [Hc _].
  destruct (digit_not_sign c Hc) as [Hm Hp].
  pose proof (digits_from_app 0 (c :: ds) rest Hds Hrest) as Hd.
  rewrite Z.mul_0_l, Z.add_0_l in Hd.
  unfold strtol.
  destruct Hsign as [->|[->| ->]].
  - cbn [app]. rewrite (skip_spaces_app ws (c :: ds ++ rest) Hws (digit_not_space c Hc)).
    rewrite Hm, Hp, Hc. cbn [app] in Hd. rewrite Hd. reflexivity.
  - rewrite (skip_spaces_app ws (["+"%byte] ++ (c :: ds) ++ rest) Hws eq_refl).
    cbn [app Byte.eqb]. cbn [app] in Hd.
    change (Byte.eqb "+" "-") with false. change (Byte.eqb "+" "+") with true.
    cbv iota. rewrite Hc, Hd. reflexivity.
  - rewrite (skip_spaces_app ws (["-"%byte] ++ (c :: ds) ++ rest) Hws eq_refl).
    cbn [app]. cbn [app] in Hd.
    change (Byte.eqb "-" "-") with true. cbv iota. rewrite Hc, Hd. reflexivity.
Qed.

(** [strtol] on a string without a number. *)
Lemma strtol_no_number ws sign rest :
  forallb isspace ws = true -> is_sign sign -> no_digit_ahead rest ->
  (sign = [] ->
   match rest with
   | [] => True
   | c :: _ => isspace c = false /\ c <> "-"%byte /\ c <> "+"%byte
   end) ->
  strtol (ws ++ sign ++ rest) = (0, ws ++ sign ++ rest).
Proof.
  intros Hws Hsign Hrest Hplain. unfold strtol.
  destruct Hsign as [->|[->| ->]].
  - specialize (Hplain eq_refl). cbn [app].
    destruct rest as [|c r].
    + rewrite app_nil_r. now rewrite (skip_spaces_all ws Hws).
    + destruct Hplain as [Hsp [Hm Hp]].
      rewrite (skip_spaces_app ws (c :: r) Hws Hsp).
      replace (Byte.eqb c "-") with false
        by (symmetry; destruct (Byte.eqb c "-") eqn:E; [apply byte_dec_bl in E; congruence|reflexivity]).
      replace (Byte.eqb c "+") with false
        by (symmetry; destruct (Byte.eqb c "+") eqn:E; [apply byte_dec_bl in E; congruence|reflexivity]).
      unfold no_digit_ahead in Hrest. now rewrite Hrest.
  - rewrite (skip_spaces_app ws (["+"%byte] ++ rest) Hws eq_refl). cbn [app].
    change (Byte.eqb "+" "-") with false. change (Byte.eqb "+" "+") with true.
    cbv iota. destruct rest as [|c r]; [reflexivity|].
    unfold no_digit_ahead in Hrest. now rewrite Hrest.
  - rewrite (skip_spaces_app ws (["-"%byte] ++ rest) Hws eq_refl). cbn [app].
    change (Byte.eqb "-" "-") with true.
    cbv iota. destruct rest as [|c r]; [reflexivity|].
    unfold no_digit_ahead in Hrest. now rewrite Hrest.
Qed.

Lemma number_longer_than_rest ws sign ds rest :
  ds <> [] -> bytes_eqb (ws ++ sign ++ ds ++ rest) rest = false.
Proof.
  intros Hne. apply bytes_eqb_length. rewrite !length_app.
  destruct ds; [contradiction|]. cbn [length]. lia.
Qed.

(** X10.  [parse_time] accepts every string that starts with a number, after
    optional blanks and with an optional sign, and ignores what follows
    the digits: it returns the number, replaced by [LONG_MAX] or
    [LONG_MIN] when it does not fit a [long]. *)
Theorem parse_time_number ws sign ds rest :
  forallb isspace ws = true -> is_sign sign ->
  forallb is_digit ds = true -> ds <> [] -> no_digit_ahead rest ->
  parse_time (ws ++ sign ++ ds ++ rest)
    = Return (clamp_long (signed sign (decimal_value ds))).
Proof.
  intros Hws Hsign Hds Hne Hrest. unfold parse_time.
  rewrite (strtol_number ws sign ds rest Hws Hsign Hds Hne Hrest).
  rewrite (number_longer_than_rest ws sign ds rest Hne).
  now rewrite andb_false_r.
Qed.

(** X11.  [parse_time] rejects every string without a number: after optional
    blanks and an optional sign no digit follows.  It exits with status
    1 and names the argument on [stderr]. *)
Theorem parse_time_no_number ws sign rest :
  forallb isspace ws = true -> is_sign sign -> no_digit_ahead rest ->
  (sign = [] ->
   match rest with
   | [] => True
   | c :: _ => isspace c = false /\ c <> "-"%byte /\ c <> "+"%byte
   end) ->
  parse_time (ws ++ sign ++ rest)
    = Exit 1 (text "alastlog: invalid numeric argument '" ++ (ws ++ sign ++ rest)
              ++ text "'" ++ NL).
Proof.
  intros Hws Hsign Hrest Hplain. unfold parse_time.
  rewrite (strtol_no_number ws sign rest Hws Hsign Hrest Hplain).
  rewrite bytes_eqb_refl. reflexivity.
Qed.

Lemma getpwnam_some db n u :
  getpwnam db n = Some u -> In u db /\ pw_name u = n.
Proof.
  unfold getpwnam. intros H. apply find_some in H. destruct H as [Hin Hn].
  split; [exact Hin|]. now apply bytes_eqb_eq.
Qed.

Lemma getpwnam_none db n :
  getpwnam db n = None -> forall u, In u db -> pw_name u <> n.
Proof.
  unfold getpwnam. intros H u Hin E.
  pose proof (find_none _ _ H u Hin) as Hf. cbv beta in Hf.
  rewrite E, bytes_eqb_refl in Hf. discriminate.
Qed.

Lemma getpwuid_some db uid u :
  getpwuid db uid = Some u -> In u db /\ pw_uid u = uid.
Proof.
  unfold getpwuid. intros H. apply find_some in H. destruct H as [Hin Hn].
  split; [exact Hin|]. now apply Z.eqb_eq.
Qed.

(** X12.  A login name wins over a numeric reading: when some entry of the
    database is named [n], [extract_user] returns an entry named [n],
    the first one, whatever number [n] may spell. *)
Theorem extract_user_by_name db n u :
  In u db -> pw_name u = n ->
  exists u', extract_user db (Some n) = Return (Some u') /\
             In u' db /\ pw_name u' = n /\ getpwnam db n = Some u'.
Proof.
  intros Hin Hn. unfold extract_user.
  destruct (getpwnam db n) as [u'|] eqn:E.
  - destruct (getpwnam_some db n u' E) as [Hin' Hn'].
    exists u'. auto.
  - exfalso. exact (getpwnam_none db n E u Hin Hn).
Qed.

(** X13.  The numeric reading.  When no entry is named [n] and [n] starts
    with a number (after blanks, with an optional sign, whatever
    follows the digits), [extract_user] looks up the number reduced
    modulo 2^32: it returns the first entry with that [pw_uid], and
    exits with status 1 and "Unknown user" when there is none. *)
Theorem extract_user_by_uid db ws sign ds rest :
  let n := ws ++ sign ++ ds ++ rest in
  let uid := to_uid_t (clamp_long (signed sign (decimal_value ds))) in
  getpwnam db n = None ->
  forallb isspace ws = true -> is_sign sign ->
  forallb is_digit ds = true -> ds <> [] -> no_digit_ahead rest ->
  extract_user db (Some n) =
    match getpwuid db uid with
    | Some u => Return (Some u)
    | None => Exit 1 (text "alastlog: Unknown user: " ++ n ++ NL)
    end.
Proof.
  intros n uid Hname Hws Hsign Hds Hne Hrest. subst n uid.
  unfold extract_user. rewrite Hname.
  rewrite (strtol_number ws sign ds rest Hws Hsign Hds Hne Hrest).
  rewrite (number_longer_than_rest ws sign ds rest Hne), andb_false_r.
  destruct (getpwuid db _); reflexivity.
Qed.

(** X14.  [extract_user] never makes an entry up: what it returns for a name
    is an entry of the database, named so or carrying the UID [strtol]
    read from the name; it returns no entry only for a [NULL] name; and
    when it exits the status is 1. *)
Theorem extract_user_sound db name :
  match extract_user db name with
  | Return None => name = None
  | Return (Some u) =>
      exists n, name = Some n /\ In u db /\
                (pw_name u = n \/ pw_uid u = to_uid_t (fst (strtol n)))
  | Exit st msg => st = 1 /\ name <> None
  end.
Proof.
  unfold extract_user. destruct name as [n|]; [|reflexivity].
  destruct (getpwnam db n) as [u|] eqn:E.
  - destruct (getpwnam_some db n u E) as [Hin Hn]. exists n. auto.
  - destruct (strtol n) as [uid temp] eqn:Es. cbn [fst].
    destruct ((uid =? 0) && bytes_eqb n temp); [split; [reflexivity|discriminate]|].
    destruct (getpwuid db (to_uid_t uid)) as [u|] eqn:Eu.
    + destruct (getpwuid_some db _ u Eu) as [Hin Hu]. exists n.
      split; [reflexivity|]. split; [exact Hin|]. right. rewrite Es. exact Hu.
    + split; [reflexivity|discriminate].
Qed.

(** *** The option loop of main *)

Lemma extract_user_exit db name st msg :
  extract_user db name = Exit st msg -> st = 1.
Proof.
  unfold extract_user. destruct name as [n|]; [|discriminate].
  destruct (getpwnam db n); [discriminate|].
  destruct (strtol n) as [uid temp].
  destruct ((uid =? 0) && bytes_eqb n temp).
  - intros H. now injection H as <- _.
  - destruct (getpwuid db (to_uid_t uid)); [discriminate|].
    intros H. now injection H as <- _.
Qed.

Lemma get_option_exit db opt val o st msg :
  get_option db opt val o = Exit st msg -> st = 1.
Proof.
  unfold get_option.
  destruct (Byte.eqb opt "u").
  { destruct (extract_user db (Some val)) as [r|st' msg'] eqn:E; [discriminate|].
    intros H. injection H as <- _. exact (extract_user_exit _ _ _ _ E). }
  destruct (Byte.eqb opt "t").
  { unfold parse_time. destruct (strtol val) as [time temp].
    destruct ((time =? 0) && bytes_eqb val temp); [|discriminate].
    intros H. now injection H as <- _. }
  destruct (Byte.eqb opt "f"); [discriminate|].
  unfold fatal. intros H. now injection H as <- _.
Qed.

Lemma list_pairs_ind (A : Type) (P : list A -> Prop) :
  P [] -> (forall a, P [a]) -> (forall a b l, P l -> P (a :: b :: l)) ->
  forall l, P l.
Proof.
  intros H0 H1 H2.
  assert (H : forall l, P l /\ forall a, P (a :: l)).
  { induction l as [|b l [IH1 IH2]]; [split; auto|].
    split; [apply IH2|]. intros a. apply H2. exact IH1. }
  intros l. apply H.
Qed.

(** Every way [main] stops before [get_log] is an exit with status 1. *)
Lemma main_loop_exit db av o st msg :
  main_loop db av o = Exit st msg -> st = 1.
Proof.
  revert o. induction av as [|a|a v rest IH] using list_pairs_ind; intros o.
  - discriminate.
  - cbn [main_loop]. unfold fatal. intros H. now injection H as <- _.
  - cbn [main_loop]. destruct (Byte.eqb (nth 0 a x00) "-").
    + destruct (get_option db (nth 1 a x00) v o) as [o'|st' msg'] eqn:E.
      * apply IH.
      * intros H. injection H as <- _. exact (get_option_exit _ _ _ _ _ _ E).
    + unfold fatal. intros H. now injection H as <- _.
Qed.

(** X15.  Options come in pairs: with an odd number of arguments [main] never
    reaches [get_log]; it exits with status 1, whatever the arguments
    are. *)
Theorem main_odd_arguments db args :
  Nat.odd (length args) = true ->
  exists msg, main db args = Exit 1 msg.
Proof.
  unfold main. generalize (mkOptions None (-1) None).
  induction args as [|a|a v rest IH] using list_pairs_ind; intros o Hodd.
  - discriminate.
  - cbn [main_loop]. unfold fatal. eauto.
  - cbn [main_loop]. destruct (Byte.eqb (nth 0 a x00) "-").
    + destruct (get_option db (nth 1 a x00) v o) as [o'|st msg] eqn:E.
      * apply IH. exact Hodd.
      * rewrite (get_option_exit _ _ _ _ _ _ E). eauto.
    + unfold fatal. eauto.
Qed.


(** X17.  Whatever the arguments, [main] stops before [get_log] only by an
    exit with status 1. *)
Theorem main_exit_status db args st msg :
  main db args = Exit st msg -> st = 1.
Proof.
  unfold main.
  destruct (main_loop db args (mkOptions None (-1) None)) as [o|st' msg'] eqn:E;
    [discriminate|].
  intros H. injection H as <- _. exact (main_loop_exit _ _ _ _ _ E).
Qed.

(** ** alastlog.c: reporting *)

Lemma c_string_firstn l i :
  (i < length l)%nat -> nth i l x00 = x00 -> c_string l = c_string (firstn i l).
Proof.
  revert i. induction l as [|c l IH]; intros i Hi Hn; [destruct i; reflexivity|].
  destruct i as [|i]; cbn [nth] in Hn.
  - subst c. reflexivity.
  - cbn [firstn c_string]. destruct (Byte.eqb c x00); [reflexivity|].
    f_equal. apply IH; [cbn [length] in Hi; lia|exact Hn].
Qed.

Lemma firstn_store n i v l :
  (n <= i)%nat -> firstn n (store i v l) = firstn n l.
Proof.
  revert n i. induction l as [|c l IH]; intros n i H.
  - destruct i; reflexivity.
  - destruct i as [|i]; [replace n with 0%nat by lia; reflexivity|].
    destruct n as [|n]; [reflexivity|].
    cbn [store firstn]. f_equal. apply IH. lia.
Qed.

Lemma firstn_c_string n l : firstn n (c_string l) = c_string (firstn n l).
Proof.
  revert n. induction l as [|c l IH]; intros n; [now destruct n|].
  destruct n as [|n]; [reflexivity|].
  cbn [firstn c_string]. destruct (Byte.eqb c x00); [reflexivity|].
  cbn [firstn]. now rewrite IH.
Qed.

Lemma check_string_some b size :
  1 <= size <= Z.of_nat (length b) -> size < 2 ^ 31 ->
  exists out, check_string (CBuf b) size = Some out /\
              length out = length b /\
              nth (Z.to_nat (size - 1)) out x00 = x00 /\
              forall n, (n <= Z.to_nat (size - 1))%nat -> firstn n out = firstn n b.
Proof.
  intros Hs Hi. unfold check_string, int_sub.
  rewrite to_int_id by (unfold in_int; lia).
  replace ((0 <=? size - 1) && (size - 1 <? Z.of_nat (length b))) with true
    by (symmetry; apply andb_true_iff; split; [apply Z.leb_le|apply Z.ltb_lt]; lia).
  assert (Hlt : (Z.to_nat (size - 1) < length b)%nat) by lia.
  destruct (Byte.eqb (nth (Z.to_nat (size - 1)) b x00) x00) eqn:E; cbn [negb].
  - apply byte_dec_bl in E. exists b. auto.
  - exists (store (Z.to_nat (size - 1)) x00 b).
    split; [reflexivity|]. split; [apply store_length|].
    split; [now apply nth_store_same|].
    intros n Hn. now apply firstn_store.
Qed.

(** X9.  What [check_string] hands to [printf]: the string held in the first
    [size - 1] bytes of the array, so a member filled to its last byte
    loses that byte; and a second [check_string] changes nothing. *)
Theorem check_string_truncates b size :
  1 <= size <= Z.of_nat (length b) -> size < 2 ^ 31 ->
  exists out,
    check_string (CBuf b) size = Some out /\
    c_string out = c_string (firstn (Z.to_nat (size - 1)) b) /\
    check_string (CBuf out) size = Some out.
Proof.
  intros Hs Hi.
  destruct (check_string_some b size Hs Hi) as [out [Hc [Hlen [Hnul Hpre]]]].
  exists out. split; [exact Hc|]. split.
  - rewrite (c_string_firstn out (Z.to_nat (size - 1))); [|lia|exact Hnul].
    now rewrite Hpre.
  - unfold check_string, int_sub. rewrite to_int_id by (unfold in_int; lia).
    replace ((0 <=? size - 1) && (size - 1 <? Z.of_nat (length out))) with true
      by (symmetry; apply andb_true_iff; split; [apply Z.leb_le|apply Z.ltb_lt]; lia).
    rewrite Hnul. reflexivity.
Qed.

Lemma pad_left_length w s : length (pad_left w s) = w.
Proof.
  unfold pad_left. rewrite length_app, repeat_length, length_firstn. lia.
Qed.

Lemma pad_left_firstn w s : pad_left w (firstn w s) = pad_left w s.
Proof.
  unfold pad_left. rewrite firstn_firstn, Nat.min_id. reflexivity.
Qed.

(** The column [printf("%-W.Ws ", check_string(field, size))] prints:
    the string in the first [W] bytes of the member. *)
Lemma column_of_member w field size out :
  check_string (CBuf field) size = Some out ->
  1 <= size <= Z.of_nat (length field) -> size < 2 ^ 31 ->
  (w <= Z.to_nat (size - 1))%nat ->
  pad_left w (c_string out) = pad_left w (c_string (firstn w field)).
Proof.
  intros Hc Hs Hi Hw.
  destruct (check_string_some field size Hs Hi) as [out' [Hc' [_ [_ Hpre]]]].
  rewrite Hc in Hc'. injection Hc' as <-.
  rewrite <- pad_left_firstn, firstn_c_string, (Hpre w Hw).
  rewrite <- (pad_left_firstn w (c_string (firstn w field))).
  rewrite firstn_c_string, firstn_firstn, Nat.min_id. reflexivity.
Qed.

Section ReportingProperties.

Variable strftime_local : Z -> list byte.

(** X18.  The line [show_info] prints for a record that passes the filter:
    the headers first when none were printed yet, then the login name
    in 16 columns, the first 8 bytes of the line in 8, the first 16
    bytes of the host in 16, each followed by a space, then the time
    and a newline.  Longer names are cut, the time always starts at
    column 43, and the function returns [YES]. *)
Theorem show_info_row r ep days headers now :
  length (ll_line r) = Z.to_nat UT_LINESIZE ->
  length (ll_host r) = Z.to_nat UT_HOSTSIZE ->
  check_time (Some r) days now = YES ->
  let row := pad_left 16 (pw_name ep) ++ SP
             ++ pad_left 8 (c_string (firstn 8 (ll_line r))) ++ SP
             ++ pad_left 16 (c_string (firstn 16 (ll_host r))) ++ SP
             ++ show_time strftime_local (Some r) ++ NL in
  exists r',
    show_info strftime_local (Some r) ep days headers now =
      Some ((if headers =? NO then print_headers else []) ++ row, YES, Some r') /\
    ll_time r' = ll_time r /\
    firstn 43 row = pad_left 16 (pw_name ep) ++ SP
                    ++ pad_left 8 (c_string (firstn 8 (ll_line r))) ++ SP
                    ++ pad_left 16 (c_string (firstn 16 (ll_host r))) ++ SP /\
    length row = (44 + length (show_time strftime_local (Some r)))%nat.
Proof.
  intros Hline Hhost Hpass row.
  assert (Hl : 1 <= UT_LINESIZE <= Z.of_nat (length (ll_line r)))
    by (rewrite Hline; unfold UT_LINESIZE; lia).
  assert (Hh : 1 <= UT_HOSTSIZE <= Z.of_nat (length (ll_host r)))
    by (rewrite Hhost; unfold UT_HOSTSIZE; lia).
  destruct (check_string_some (ll_line r) UT_LINESIZE Hl ltac:(unfold UT_LINESIZE; lia))
    as [line [Hcl _]].
  destruct (check_string_some (ll_host r) UT_HOSTSIZE Hh ltac:(unfold UT_HOSTSIZE; lia))
    as [host [Hch _]].
  exists (mkLastlog (ll_time r) line host).
  split; [|split; [reflexivity|]].
  - unfold show_info. rewrite Hpass. change (YES =? NO) with false. cbv iota.
    rewrite Hcl, Hch.
    rewrite (column_of_member 8 _ _ _ Hcl Hl)
      by (unfold UT_LINESIZE; lia).
    rewrite (column_of_member 16 _ _ _ Hch Hh)
      by (unfold UT_HOSTSIZE; lia).
    subst row. rewrite <- !app_assoc. reflexivity.
  - set (cols := pad_left 16 (pw_name ep) ++ SP
                  ++ pad_left 8 (c_string (firstn 8 (ll_line r))) ++ SP
                  ++ pad_left 16 (c_string (firstn 16 (ll_host r))) ++ SP).
    assert (Hcols : length cols = 43%nat).
    { subst cols. rewrite !length_app, !pad_left_length. reflexivity. }
    assert (Hrow : row = cols ++ show_time strftime_local (Some r) ++ NL).
    { subst row cols. rewrite <- !app_assoc. reflexivity. }
    rewrite Hrow. split.
    + rewrite firstn_app, Hcols, Nat.sub_diag, firstn_O, app_nil_r.
      apply firstn_all2. lia.
    + rewrite !length_app, Hcols. cbn [length NL]. lia.
Qed.

End ReportingProperties.

(** X19.  The time filter.  [DAYS = -1] switches it off, also when the user
    passes it ("-t -1" is accepted and means -1).  Any other [DAYS]
    whose seconds fit a [long] keeps exactly the logins at most
    [86400 * DAYS] seconds before [now]; a [NULL] record counts as a
    login at time 0.  (The range of [now - login] is the one where the
    [double] arithmetic of the code is exact.) *)
Theorem check_time_filter :
  (forall lp now, check_time lp (-1) now = YES) /\
  parse_time (text "-1") = Return (-1) /\
  (forall lp days now,
      days <> -1 ->
      - 2 ^ 63 <= SECONDS_IN_DAY * days < 2 ^ 63 ->
      let login := match lp with Some r => ll_time r | None => 0 end in
      - 2 ^ 53 < now - login < 2 ^ 53 ->
      check_time lp days now
        = if now - login <=? SECONDS_IN_DAY * days then YES else NO).
Proof.
  split; [reflexivity|]. split; [vm_compute; reflexivity|].
  intros lp days now Hd Hrange login _. unfold check_time. fold login.
  apply Z.eqb_neq in Hd. rewrite Hd. cbn [negb].
  rewrite to_off_t_id by exact Hrange.
  rewrite Z.gtb_ltb.
  destruct (Z.leb_spec (now - login) (SECONDS_IN_DAY * days)) as [H|H].
  - replace (SECONDS_IN_DAY * days <? now - login) with false
      by (symmetry; apply Z.ltb_ge; lia).
    reflexivity.
  - replace (SECONDS_IN_DAY * days <? now - login) with true
      by (symmetry; apply Z.ltb_lt; lia).
    reflexivity.
Qed.

Section FilterProperties.

Variable strftime_local : Z -> list byte.

(** X20.  With a filter of [DAYS >= 0] days, an account that never logged in
    (no record, or a record with time 0) is not shown as soon as [now]
    is more than [DAYS] days after the epoch: [show_info] prints
    nothing and returns the headers flag unchanged.  ([now < 2^53] is
    the range where the [double] arithmetic of [check_time] is exact.) *)
Theorem show_info_hides_never_logged_in lp ep days headers now :
  match lp with Some r => ll_time r = 0 | None => True end ->
  0 <= days -> SECONDS_IN_DAY * days < now -> now < 2 ^ 53 ->
  show_info strftime_local lp ep days headers now = Some ([], headers, lp).
Proof.
  intros Hlp Hd Hnow Hrange.
  assert (Hno : check_time lp days now = NO).
  { unfold check_time.
    replace (days =? -1) with false by (symmetry; apply Z.eqb_neq; lia).
    cbn [negb].
    rewrite to_off_t_id by (unfold SECONDS_IN_DAY in *; lia).
    replace (match lp with Some r => ll_time r | None => 0 end) with 0
      by (destruct lp; congruence).
    rewrite Z.sub_0_r.
    replace (now >? SECONDS_IN_DAY * days) with true
      by (symmetry; apply Z.gtb_lt; lia).
    reflexivity. }
  unfold show_info. rewrite Hno. reflexivity.
Qed.

End FilterProperties.

(** ** lllib.c: opening and closing *)

Lemma fdt_get_some_in fd t o : fdt_get fd t = Some o -> In fd (map fst t).
Proof.
  induction t as [|[n o'] t IH]; simpl; [discriminate|].
  destruct (n =? fd) eqn:E; [apply Z.eqb_eq in E; auto|auto].
Qed.

(** The descriptor [open] picks is not open. *)
Lemma lowest_free_fd_free t : fdt_get (lowest_free_fd t) t = None.
Proof.
  unfold lowest_free_fd.
  set (candidates := map (fun n => 3 + Z.of_nat n) (seq 0 (S (length t)))).
  destruct (find (fd_is_free t) candidates) as [fd|] eqn:E.
  - apply find_some in E. destruct E as [_ E]. unfold fd_is_free in E.
    destruct (fdt_get fd t); [discriminate|reflexivity].
  - exfalso.
    assert (Hnd : NoDup candidates).
    { subst candidates. apply Injective_map_NoDup; [|apply seq_NoDup].
      intros x y H. lia. }
    assert (Hincl : incl candidates (map fst t)).
    { intros c Hc. pose proof (find_none _ _ E c Hc) as Hf. unfold fd_is_free in Hf.
      destruct (fdt_get c t) as [o|] eqn:Eg; [|discriminate].
      exact (fdt_get_some_in c t o Eg). }
    pose proof (NoDup_incl_length Hnd Hincl) as Hlen.
    subst candidates. rewrite !length_map, length_seq in Hlen. lia.
Qed.

Lemma fdt_del_absent fd t : fdt_get fd t = None -> fdt_del fd t = t.
Proof.
  unfold fdt_del. induction t as [|[n o] t IH]; simpl; [reflexivity|].
  destruct (n =? fd) eqn:E; [discriminate|]. simpl. intros H. now rewrite IH.
Qed.

(** X8.  [ll_open] followed by [ll_close] leaves no descriptor behind:
    [ll_open] gets a descriptor that was not open, [ll_close] closes
    that very descriptor and returns 0, and the table of open
    descriptors is again what it was before [ll_open]. *)
Theorem ll_open_close_round_trip w0 path f :
  lookup_file path (k_files (os w0)) = Some f ->
  let fd := fst (ll_open path w0) in
  let wc := snd (ll_close (snd (ll_open path w0))) in
  3 <= fd /\ fdt_get fd (k_fdt (os w0)) = None /\
  fst (ll_close (snd (ll_open path w0))) = 0 /\
  k_fdt (os wc) = k_fdt (os w0) /\
  k_trace (os wc) = SysClose fd 0 :: SysOpen path fd :: k_trace (os w0).
Proof.
  destruct w0 as [g [files fdt trace]]. cbn [os k_files k_fdt k_trace]. intros Hf.
  rewrite (ll_open_found g files fdt trace path f Hf). cbn [fst snd].
  pose proof (lowest_free_fd_range fdt) as Hrange.
  pose proof (lowest_free_fd_free fdt) as Hfree.
  set (fd := lowest_free_fd fdt) in *.
  split; [lia|]. split; [exact Hfree|].
  unfold ll_close. autounfold with llmonad. unfold sys_close.
  cbn [fst snd lib os ll_fd k_fdt k_files k_trace].
  replace (fd =? -1) with false by (symmetry; apply Z.eqb_neq; lia).
  cbn [negb fst snd lib os ll_fd k_fdt k_files k_trace].
  rewrite fdt_get_set_same. cbn [fst snd os k_fdt k_trace].
  split; [reflexivity|]. split; [|reflexivity].
  unfold fdt_set, fdt_del. cbn [filter fst]. rewrite Z.eqb_refl. cbn [negb].
  fold (fdt_del fd fdt). rewrite (fdt_del_absent fd fdt Hfree).
  fold (fdt_del fd fdt). apply fdt_del_absent. exact Hfree.
Qed.

(** ** Instances of the theorems on scans, lookups and arguments *)

Lemma ll_read_sequential_scan_witness :
  let w := after_reads LLSIZE 2 (snd (ll_open lastlog_path (boot (regular 3)))) in
  load_record LLSIZE (lib (snd (ll_read LLSIZE w))) (fst (ll_read LLSIZE w))
    = file_record LLSIZE (regular 3) 2 /\
  file_record LLSIZE (regular 3) 2 <> None.
Proof.
  intros w.
  refine (proj1 (ll_read_sequential_scan LLSIZE (proj1 linux_llsize_ok)
                   (proj2 linux_llsize_ok) (boot (regular 3)) lastlog_path
                   (regular 3) 2 _ _) _).
  - reflexivity.
  - reflexivity.
  - vm_compute; reflexivity.
Defined.

Lemma ll_read_scan_reads_each_page_once_witness :
  let w := snd (ll_open lastlog_path (boot (regular 514))) in
  k_trace (os (after_reads LLSIZE 514 w)) =
    page_reads LLSIZE (ll_fd (lib w)) (regular 514)
               (S (Z.to_nat ((Z.of_nat 514 - 1) / NRECS)))
      ++ k_trace (os w).
Proof.
  refine (ll_read_scan_reads_each_page_once LLSIZE (proj1 linux_llsize_ok)
            (proj2 linux_llsize_ok) (boot (regular 514)) lastlog_path
            (regular 514) 514 _ _ _).
  - reflexivity.
  - reflexivity.
  - vm_compute. split; discriminate.
Defined.

Lemma ll_seek_miss_then_read_witness :
  let w := snd (ll_open lastlog_path (boot (regular 1024))) in
  let ws := snd (ll_seek LLSIZE 600 w) in
  fst (ll_seek LLSIZE 600 w) = 0 /\
  load_record LLSIZE (lib (snd (ll_read LLSIZE ws))) (fst (ll_read LLSIZE ws))
    = file_record LLSIZE (regular 1024) 600.
Proof.
  intros w ws.
  assert (Hr : 0 <= 600 < 2 ^ 31) by lia.
  destruct (ll_seek_miss_then_read LLSIZE (proj1 linux_llsize_ok)
              (proj2 linux_llsize_ok) w 600 (regular 1024) 0 Hr) as [H1 [H2 _]].
  - vm_compute; discriminate.
  - vm_compute; discriminate.
  - vm_compute; reflexivity.
  - unfold open_on. reflexivity.
  - reflexivity.
  - reflexivity.
  - vm_compute; reflexivity.
  - exact (conj H1 H2).
Defined.

Lemma ll_open_seek_read_witness :
  let wo := snd (ll_open lastlog_path (boot (regular 1024))) in
  let ws := snd (ll_seek LLSIZE 600 wo) in
  fst (ll_seek LLSIZE 600 wo) = 0 /\
  load_record LLSIZE (lib (snd (ll_read LLSIZE ws))) (fst (ll_read LLSIZE ws))
    = file_record LLSIZE (regular 1024) 600 /\
  file_record LLSIZE (regular 1024) 600 <> None.
Proof.
  assert (Hr : 0 <= 600 < 2 ^ 31) by lia.
  refine (ll_open_seek_read LLSIZE (proj1 linux_llsize_ok) (proj2 linux_llsize_ok)
            (boot (regular 1024)) lastlog_path (regular 1024) 600 _ _ _ Hr _).
  - reflexivity.
  - reflexivity.
  - reflexivity.
  - vm_compute; reflexivity.
Defined.

Lemma ll_seek_hit_then_read_witness :
  let w := snd ((ll_open lastlog_path ;; ll_read LLSIZE) (boot (regular 1))) in
  let ws := snd (ll_seek LLSIZE 0 w) in
  fst (ll_seek LLSIZE 0 w) = 0 /\
  load_record LLSIZE (lib (snd (ll_read LLSIZE ws))) (fst (ll_read LLSIZE ws))
    = file_record LLSIZE (regular 1) 0 /\
  os (snd (ll_read LLSIZE ws)) = os w.
Proof.
  intros w ws.
  assert (Hn : num_recs (lib w) = 1) by (vm_compute; reflexivity).
  assert (Hb : buf_start (lib w) = 0) by (vm_compute; reflexivity).
  apply (ll_seek_hit_then_read LLSIZE (proj1 linux_llsize_ok)
           (proj2 linux_llsize_ok) w 0 (regular 1)).
  - vm_compute; discriminate.
  - rewrite Hb. unfold NRECS. lia.
  - rewrite Hn. unfold NRECS. lia.
  - intros i Hi. rewrite Hn in Hi. assert (i = 0) as -> by lia.
    vm_compute; reflexivity.
  - rewrite Hb, Hn. lia.
  - vm_compute; discriminate.
Defined.

Lemma ll_open_failure_disables_store_witness :
  let w0 := mkWorld (initial_globals LLSIZE) (mkKernel [] [] []) in
  let w := snd (ll_open lastlog_path w0) in
  fst (ll_open lastlog_path w0) = -1 /\
  k_trace (os w) = SysOpen lastlog_path (-1) :: k_trace (os w0) /\
  forall rec,
    ll_seek LLSIZE rec w = (-1, w) /\
    ll_read LLSIZE w = (LL_NULL, w) /\
    ll_close w = (0, w).
Proof.
  exact (ll_open_failure_disables_store LLSIZE
           (mkWorld (initial_globals LLSIZE) (mkKernel [] [] [])) lastlog_path
           eq_refl).
Defined.

Lemma ll_read_stays_in_buffer_witness :
  let w := snd (ll_open lastlog_path (boot (regular 3))) in
  let wk := after_reads LLSIZE 5 w in
  window_inv (lib wk) /\
  forall off, fst (ll_read LLSIZE wk) = LLP off ->
    0 <= off /\ off + LLSIZE <= NRECS * LLSIZE /\ off mod LLSIZE = 0.
Proof.
  refine (ll_read_stays_in_buffer LLSIZE (proj1 linux_llsize_ok)
            (proj2 linux_llsize_ok) (snd (ll_open lastlog_path (boot (regular 3))))
            (mkOfd (regular 3) 0) 5 _ _ _ _).
  - unfold open_on. reflexivity.
  - reflexivity.
  - cbn [of_pos]. lia.
  - apply ll_open_window_inv.
Defined.

Lemma parse_time_number_witness :
  parse_time (text " " ++ text "-" ++ text "15" ++ text "days") = Return (-15).
Proof.
  rewrite (parse_time_number (text " ") (text "-") (text "15") (text "days")).
  - vm_compute; reflexivity.
  - reflexivity.
  - right; right; reflexivity.
  - reflexivity.
  - discriminate.
  - reflexivity.
Defined.

Lemma parse_time_no_number_witness :
  parse_time ([] ++ [] ++ text "soon")
    = Exit 1 (text "alastlog: invalid numeric argument '" ++ ([] ++ [] ++ text "soon")
              ++ text "'" ++ NL).
Proof.
  apply (parse_time_no_number [] [] (text "soon")).
  - reflexivity.
  - left; reflexivity.
  - reflexivity.
  - intros _. cbn. repeat split; discriminate.
Defined.

Lemma extract_user_by_name_witness :
  let db := [mkPasswd (text "root") 0; mkPasswd (text "1000") 5;
             mkPasswd (text "bob") 1000] in
  exists u', extract_user db (Some (text "1000")) = Return (Some u') /\
             In u' db /\ pw_name u' = text "1000" /\
             getpwnam db (text "1000") = Some u'.
Proof.
  intros db.
  apply (extract_user_by_name db (text "1000") (mkPasswd (text "1000") 5)).
  - right; left; reflexivity.
  - reflexivity.
Defined.

Lemma extract_user_by_uid_witness :
  let db := [mkPasswd (text "root") 0; mkPasswd (text "bob") 1000] in
  extract_user db (Some ([] ++ [] ++ text "4294967296" ++ [])) =
    Return (Some (mkPasswd (text "root") 0)).
Proof.
  intros db.
  rewrite (extract_user_by_uid db [] [] (text "4294967296") []).
  - vm_compute; reflexivity.
  - vm_compute; reflexivity.
  - reflexivity.
  - left; reflexivity.
  - reflexivity.
  - discriminate.
  - exact I.
Defined.

Lemma main_odd_arguments_witness :
  exists msg,
    main [mkPasswd (text "root") 0] [text "-u"; text "root"; text "-t"] = Exit 1 msg.
Proof.
  apply main_odd_arguments. reflexivity.
Defined.


Lemma main_exit_status_witness :
  let out := main [] [text "lastlog"] in
  match out with Exit st _ => st | Return _ => 0 end = 1.
Proof.
  intros out.
  apply (main_exit_status [] [text "lastlog"] _
           (match out with Exit _ msg => msg | Return _ => [] end)).
  vm_compute; reflexivity.
Defined.

Lemma check_string_truncates_witness :
  let line := repeat "a"%byte 32 in
  exists out,
    check_string (CBuf line) UT_LINESIZE = Some out /\
    c_string out = c_string (firstn (Z.to_nat (UT_LINESIZE - 1)) line) /\
    check_string (CBuf out) UT_LINESIZE = Some out.
Proof.
  intros line. apply (check_string_truncates line UT_LINESIZE).
  - vm_compute. split; discriminate.
  - vm_compute; reflexivity.
Defined.

Lemma show_info_row_witness :
  let fmt := fun _ : Z => text "Thu Jan  1 00:00:10 +0000 1970" in
  let r := mkLastlog 10 (text "pts/0" ++ repeat x00 27)
                     (text "a-very-long-host-name.example.org" ++ repeat x00 223) in
  let ep := mkPasswd (text "root") 0 in
  exists r',
    show_info fmt (Some r) ep (-1) NO 20 =
      Some (print_headers
            ++ pad_left 16 (pw_name ep) ++ SP
            ++ pad_left 8 (c_string (firstn 8 (ll_line r))) ++ SP
            ++ pad_left 16 (c_string (firstn 16 (ll_host r))) ++ SP
            ++ show_time fmt (Some r) ++ NL, YES, Some r').
Proof.
  intros fmt r ep.
  destruct (show_info_row fmt r ep (-1) NO 20) as [r' [H _]].
  - reflexivity.
  - reflexivity.
  - reflexivity.
  - exists r'. exact H.
Defined.

Lemma check_time_filter_witness :
  check_time (Some (mkLastlog 1000 [] [])) 1 90000
    = if 90000 - 1000 <=? SECONDS_IN_DAY * 1 then YES else NO.
Proof.
  apply (proj2 (proj2 check_time_filter) (Some (mkLastlog 1000 [] [])) 1 90000).
  - discriminate.
  - vm_compute. split; [discriminate|reflexivity].
  - vm_compute. split; reflexivity.
Defined.

Lemma show_info_hides_never_logged_in_witness :
  show_info (fun _ => []) None (mkPasswd (text "daemon") 1) 30 YES 1700000000
    = Some ([], YES, None).
Proof.
  apply (show_info_hides_never_logged_in (fun _ => []) None
           (mkPasswd (text "daemon") 1) 30 YES 1700000000).
  - exact I.
  - lia.
  - vm_compute; reflexivity.
  - vm_compute; reflexivity.
Defined.

Lemma ll_open_close_round_trip_witness :
  let w0 := boot (regular 3) in
  let fd := fst (ll_open lastlog_path w0) in
  let wc := snd (ll_close (snd (ll_open lastlog_path w0))) in
  3 <= fd /\ fdt_get fd (k_fdt (os w0)) = None /\
  fst (ll_close (snd (ll_open lastlog_path w0))) = 0 /\
  k_fdt (os wc) = k_fdt (os w0) /\
  k_trace (os wc) = SysClose fd 0 :: SysOpen lastlog_path fd :: k_trace (os w0).
Proof.
  exact (ll_open_close_round_trip (boot (regular 3)) lastlog_path (regular 3) eq_refl).
Defined.
